(** * Repository health snapshot: dependency graph, history mining, priority hotspots

    A shallow embedding of the analysis scripts

      - [analysis/dependency_analysis.py]  (module graph, cycles, instability)
      - [analysis/git_analysis.py]         (history mining, temporal coupling)
      - [analysis/snapshot.py]             (priority hotspots, entry point)

    Python values are modelled as follows.

      - [str] is [string]; a path is compared the way Python compares [str],
        character by character ([String.compare]).  Non-ASCII text is the
        sequence of its UTF-8 bytes, whose order agrees with code-point
        order.
      - [int] is [Z] or [nat] (lengths and counters that only grow).
      - The quotient [a / b] of two ints is the exact rational in [Q];
        equality of such quotients is [Qeq].
      - A [dict] is an association list in insertion order (iteration order
        matters for the depth-first search and for stable sorts); a [set]
        that the code iterates over is a duplicate-free list in iteration
        order; a [set] that is only tested for membership is a [gset].
      - Exceptions are the [Raise] outcome of [res]. *)

From Stdlib Require Import String Ascii List ZArith QArith Lia Bool.
From stdpp Require Import base list strings gmap sorting.

Set Warnings "-clear-no-such-hyp".

Open Scope string_scope.
Open Scope list_scope.

(** ** Outcomes of a computation *)

Inductive exn : Type :=
  | ValueError
  | KeyError
  | IndexError
  | OSError
  | CalledProcessError
  | TimeoutExpired
  | FileNotFoundError.

Inductive res (A : Type) : Type :=
  | Ok (a : A)
  | Raise (e : exn)
  | OutOfFuel.

Arguments Ok {A} a.
Arguments Raise {A} e.
Arguments OutOfFuel {A}.

#[global] Instance res_bind : MBind res := λ A B k m,
  match m with
  | Ok a => k a
  | Raise e => Raise e
  | OutOfFuel => OutOfFuel
  end.

Definition or_raise {A : Type} (e : exn) (o : option A) : res A :=
  match o with
  | Some a => Ok a
  | None => Raise e
  end.

(** [for x in l: s = f(s, x)] with exceptions. *)
Fixpoint foldM {A S : Type} (f : S → A → res S) (l : list A) (s : S) : res S :=
  match l with
  | [] => Ok s
  | x :: l' => s' ← f s x; foldM f l' s'
  end.

(** ** Python strings *)

(** [str.isspace] on one ASCII character: TAB..CR, FS..US and SPACE. *)
Definition is_space (c : ascii) : bool :=
  let n := nat_of_ascii c in
  (((9 <=? n) && (n <=? 13)) || ((28 <=? n) && (n <=? 32)))%nat.

Fixpoint lstrip_chars (l : list ascii) : list ascii :=
  match l with
  | [] => []
  | c :: l' => if is_space c then lstrip_chars l' else l
  end.

(** [s.strip()] *)
Definition strip (s : string) : string :=
  string_of_list_ascii
    (rev (lstrip_chars (rev (lstrip_chars (list_ascii_of_string s))))).

(** [s.split(sep)] for a one-character separator. *)
Fixpoint split_char (sep : ascii) (s : string) : list string :=
  match s with
  | EmptyString => [EmptyString]
  | String c s' =>
      if Ascii.eqb c sep then EmptyString :: split_char sep s'
      else match split_char sep s' with
           | [] => [String c EmptyString]
           | w :: ws => String c w :: ws
           end
  end.

(** [s.count(c)] for a one-character argument. *)
Fixpoint count_char (sep : ascii) (s : string) : nat :=
  match s with
  | EmptyString => 0
  | String c s' => (if Ascii.eqb c sep then 1 else 0) + count_char sep s'
  end.

(** [s.startswith(p)] *)
Definition startswith (p s : string) : bool := String.prefix p s.

(** [p in s] for strings. *)
Fixpoint contains (p s : string) : bool :=
  String.prefix p s ||
  match s with
  | EmptyString => false
  | String _ s' => contains p s'
  end.

Definition string_rev (s : string) : string :=
  string_of_list_ascii (rev (list_ascii_of_string s)).

(** [s.endswith(p)] *)
Definition endswith (p s : string) : bool :=
  String.prefix (string_rev p) (string_rev s).

(** [s.replace(a, b)] for one-character [a]; [b] may be longer. *)
Fixpoint replace_char (a : ascii) (b : string) (s : string) : string :=
  match s with
  | EmptyString => EmptyString
  | String c s' =>
      if Ascii.eqb c a then b +:+ replace_char a b s'
      else String c (replace_char a b s')
  end.

(** ["/".join(l)] and friends. *)
Fixpoint join (sep : string) (l : list string) : string :=
  match l with
  | [] => EmptyString
  | [x] => x
  | x :: l' => x +:+ sep +:+ join sep l'
  end.

Definition is_digit (c : ascii) : bool :=
  let n := nat_of_ascii c in ((48 <=? n) && (n <=? 57))%nat.

Definition digit_value (c : ascii) : Z := Z.of_nat (nat_of_ascii c) - 48.

(** Digits of an int literal: groups of digits separated by single
    underscores.  [after_digit] tells whether the previous character was a
    digit. *)
Fixpoint parse_digits (l : list ascii) (after_digit : bool) (acc : Z)
  : option Z :=
  match l with
  | [] => if after_digit then Some acc else None
  | c :: l' =>
      if is_digit c then parse_digits l' true (10 * acc + digit_value c)
      else if Ascii.eqb c "_"%char && after_digit
           then parse_digits l' false acc
           else None
  end.

(** [int(s)] on ASCII input: surrounding white space, an optional sign,
    decimal digits.  [None] stands for [ValueError]. *)
Definition py_int (s : string) : option Z :=
  match list_ascii_of_string (strip s) with
  | [] => None
  | c :: l =>
      if Ascii.eqb c "-"%char then Z.opp <$> parse_digits l false 0
      else if Ascii.eqb c "+"%char then parse_digits l false 0
      else parse_digits (c :: l) false 0
  end.

(** ** Python lists, sets and dicts *)

(** [l.index(x)]: position of the first occurrence; [None] is [ValueError]. *)
Fixpoint index_of {A : Type} `{EqDecision A} (x : A) (l : list A)
  : option nat :=
  match l with
  | [] => None
  | y :: l' => if decide (x = y) then Some 0 else S <$> index_of x l'
  end.

(** [l[:-1]] *)
Definition all_but_last {A : Type} (l : list A) : list A :=
  take (length l - 1) l.

(** [min(l)] on strings: the first least element; [None] is [ValueError]. *)
Definition py_min (l : list string) : option string :=
  match l with
  | [] => None
  | x :: l' => Some (fold_left (λ m y, if String.ltb y m then y else m) l' x)
  end.

(** [s.add(x)] on a set kept in iteration order. *)
Definition set_add {A : Type} `{EqDecision A} (x : A) (s : list A) : list A :=
  if decide (x ∈ s) then s else s ++ [x].

(** A stable sort: [insert_sorted le x l] puts [x] before the first [y] with
    [le x y].  With [le x y := key x <= key y] this is [sorted(l, key=key)];
    with [le x y := key y <= key x] it is [sorted(l, key=key, reverse=True)],
    which also keeps equal elements in their original order. *)
Fixpoint insert_sorted {A : Type} (le : A → A → bool) (x : A) (l : list A)
  : list A :=
  match l with
  | [] => [x]
  | y :: l' => if le x y then x :: y :: l' else y :: insert_sorted le x l'
  end.

Fixpoint stable_sort {A : Type} (le : A → A → bool) (l : list A) : list A :=
  match l with
  | [] => []
  | x :: l' => insert_sorted le x (stable_sort le l')
  end.

Section dict.
Context {K V : Type} `{EqDecision K}.

(** [d.get(k)] *)
Fixpoint dict_get (k : K) (d : list (K * V)) : option V :=
  match d with
  | [] => None
  | (k', v) :: d' => if decide (k = k') then Some v else dict_get k d'
  end.

(** [k in d] *)
Definition dict_has (k : K) (d : list (K * V)) : bool :=
  match dict_get k d with Some _ => true | None => false end.

(** [d[k] = v]: an existing key keeps its position, a new one goes last. *)
Fixpoint dict_set (k : K) (v : V) (d : list (K * V)) : list (K * V) :=
  match d with
  | [] => [(k, v)]
  | (k', v') :: d' =>
      if decide (k = k') then (k, v) :: d' else (k', v') :: dict_set k v d'
  end.

(** [d[k] = f(d[k])] on a [defaultdict] with default [dflt]. *)
Definition dict_upd (dflt : V) (f : V → V) (k : K) (d : list (K * V))
  : list (K * V) :=
  dict_set k (f (default dflt (dict_get k d))) d.

Definition dict_keys (d : list (K * V)) : list K := d.*1.
Definition dict_values (d : list (K * V)) : list V := d.*2.

End dict.

(** ** analysis/dependency_analysis.py *)

(** *** ModuleInfo *)

Record ModuleInfo : Type := {
  path : string;
  imports : list string;      (* set of modules this imports *)
  imported_by : list string;  (* set of modules that import this *)
}.

Definition fan_out (m : ModuleInfo) : nat := length (imports m).
Definition fan_in (m : ModuleInfo) : nat := length (imported_by m).

(** [ModuleInfo.instability] *)
Definition instability (m : ModuleInfo) : Q :=
  let total := (fan_in m + fan_out m)%nat in
  if (total =? 0)%nat then 0%Q
  else (inject_Z (Z.of_nat (fan_out m)) / inject_Z (Z.of_nat total))%Q.

(** *** The file system seen by [pathlib]

    An absolute POSIX path is the list of its components below ["/"].
    Symbolic links are not modelled, so [Path.resolve] only removes [".."].
    The text of a source file is represented by what the three import
    patterns of [extract_imports_typescript] capture in it: the strings
    [match.group(1)], in the order the loops visit them. *)

Inductive fs_node : Type :=
  | Dir
  | File (captured : list string)
  | Unreadable.   (* [read_text] raises UnicodeDecodeError or OSError *)

(** Entries in the order directory traversal yields them. *)
Definition file_system : Type := list (list string * fs_node).

(** [p.exists() and p.is_file()] *)
Definition is_file (fs : file_system) (p : list string) : bool :=
  match dict_get p fs with
  | Some (File _) | Some Unreadable => true
  | _ => false
  end.

(** Components of a path string: empty and ["."] segments disappear. *)
Definition path_components (s : string) : list string :=
  filter (λ c, c ≠ "" ∧ c ≠ ".") (split_char "/" s).

(** [Path.resolve] without symbolic links. *)
Fixpoint resolve (acc : list string) (l : list string) : list string :=
  match l with
  | [] => acc
  | c :: l' =>
      if decide (c = "..") then resolve (all_but_last acc) l'
      else resolve (acc ++ [c]) l'
  end.

(** [p.relative_to(root)]; [None] is [ValueError]. *)
Fixpoint relative_to (root p : list string) : option (list string) :=
  match root, p with
  | [], _ => Some p
  | r :: root', c :: p' => if decide (r = c) then relative_to root' p' else None
  | _ :: _, [] => None
  end.

(** [p.as_posix()] of a relative path. *)
Definition as_posix (p : list string) : string :=
  match p with
  | [] => "."
  | _ => join "/" p
  end.

(** [s.rfind(c)], counting positions from [i]. *)
Fixpoint rfind_char (c : ascii) (s : string) (i : nat) : option nat :=
  match s with
  | EmptyString => None
  | String c' s' =>
      match rfind_char c s' (S i) with
      | Some j => Some j
      | None => if Ascii.eqb c' c then Some i else None
      end
  end.

(** The file name without its suffix ([PurePath.stem]): the suffix starts at
    the last dot, unless that dot is the first or the last character. *)
Definition stem (name : string) : string :=
  match rfind_char "." name 0 with
  | Some i =>
      if ((0 <? i) && (i <? String.length name - 1))%nat
      then substring 0 i name
      else name
  | None => name
  end.

(** [p.with_suffix(sfx)]; a path with an empty name raises [ValueError]. *)
Definition with_suffix (sfx : string) (p : list string) : res (list string) :=
  match last p with
  | None => Raise ValueError
  | Some name => Ok (all_but_last p ++ [stem name +:+ sfx])
  end.

(** [resolve_import_path]; [from_dir] is [from_file.parent]. *)
Definition resolve_import_path (fs : file_system)
    (from_file : list string) (import_path : string) (repo_root : list string)
  : res (option string) :=
  let from_dir := all_but_last from_file in
  let joined :=
    if startswith "/" import_path then path_components import_path
    else from_dir ++ path_components import_path in
  let resolved := resolve [] joined in
  ts ← with_suffix ".ts" resolved;
  tsx ← with_suffix ".tsx" resolved;
  js ← with_suffix ".js" resolved;
  let candidates :=
    [ resolved; ts; tsx; js;
      resolved ++ ["index.ts"]; resolved ++ ["index.tsx"];
      resolved ++ ["index.js"] ] in
  Ok (match List.find (is_file fs) candidates with
      | Some candidate => as_posix <$> relative_to repo_root candidate
      | None => None
      end).

(** [extract_imports_typescript] *)
Definition extract_imports_typescript (fs : file_system)
    (filepath : list string) (repo_root : list string) : res (list string) :=
  match dict_get filepath fs with
  | Some (File captured) =>
      foldM (λ imports import_path,
               if startswith "." import_path then
                 resolved ← resolve_import_path fs filepath import_path repo_root;
                 Ok (match resolved with
                     | Some r => if decide (r = "") then imports
                                 else set_add r imports
                     | None => imports
                     end)
               else Ok imports)
            captured []
  | _ => Ok []
  end.

Definition skip_dirs : list string :=
  ["node_modules"; "dist"; "out"; ".venv"; "__pycache__"; ".git";
   ".vscode-test"].

(** [should_analyze_file]; [gitignore] is the predicate [match_file] of the
    loaded [.gitignore], or [None] when there is no such file. *)
Definition should_analyze_file (filepath repo_root : list string)
    (gitignore : option (string → bool)) : bool :=
  let rel_path := as_posix (default [] (relative_to repo_root filepath)) in
  if existsb (λ part, bool_decide (part ∈ skip_dirs)) ("/" :: filepath)
  then false
  else if match gitignore with Some g => g rel_path | None => false end
  then false
  else if existsb (λ x, contains x rel_path)
            ["/test/"; "/mocks/"; ".test."; ".spec."]
  then false
  else true.

(** [repo_root.rglob("*" + ext)]: the entries strictly below [repo_root]
    whose name ends with [ext]. *)
Definition rglob (fs : file_system) (repo_root : list string) (ext : string)
  : list (list string) :=
  omap (λ entry : list string * fs_node,
          match relative_to repo_root entry.1 with
          | Some rel =>
              match last rel with
              | Some name => if endswith ext name then Some entry.1 else None
              | None => None
              end
          | None => None
          end) fs.

Definition add_imported_by (module_path : string) (m : ModuleInfo)
  : ModuleInfo :=
  {| path := path m; imports := imports m;
     imported_by := set_add module_path (imported_by m) |}.

(** Second pass of [build_dependency_graph]: the inner loop over the imports
    of one module. *)
Definition link_imports (module_path : string) (module_imports : list string)
    (modules : list (string * ModuleInfo)) : list (string * ModuleInfo) :=
  fold_left (λ mods imported_path,
               match dict_get imported_path mods with
               | Some target =>
                   dict_set imported_path
                     (add_imported_by module_path target) mods
               | None => mods
               end) module_imports modules.

(** [build_dependency_graph] *)
Definition build_dependency_graph (fs : file_system) (repo_root : list string)
    (gitignore : option (string → bool)) : res (list (string * ModuleInfo)) :=
  let extensions := [".ts"; ".tsx"; ".js"; ".jsx"] in
  let source_files :=
    mbind (M := list) (λ ext,
      List.filter (λ filepath, should_analyze_file filepath repo_root gitignore)
        (rglob fs repo_root ext)) extensions in
  (* first pass: extract imports *)
  modules ← foldM (λ modules filepath,
      let rel_path := as_posix (default [] (relative_to repo_root filepath)) in
      imports ← extract_imports_typescript fs filepath repo_root;
      Ok (dict_set rel_path
            {| path := rel_path; imports := imports; imported_by := [] |}
            modules))
    source_files [];
  (* second pass: reverse dependencies *)
  Ok (fold_left (λ (mods : list (string * ModuleInfo))
                     (item : string * ModuleInfo),
                   link_imports item.1 (imports item.2) mods)
        modules modules).

(** *** Cycle detection *)

(** The state shared by the calls of the nested function [dfs]. *)
Record dfs_state : Type := {
  cycles : list (list string);
  visited : gset string;
  rec_stack : gset string;
}.

(** The branch [if node in rec_stack] of [dfs]: extract the cycle from the
    path, rotate it to start at its smallest member, record it once. *)
Definition found_cycle (node : string) (path : list string)
    (cycles : list (list string)) : res (list (list string)) :=
  cycle_start ← or_raise ValueError (index_of node path);
  let cycle := drop cycle_start path ++ [node] in
  smallest ← or_raise ValueError (py_min (all_but_last cycle));
  min_idx ← or_raise ValueError (index_of smallest cycle);
  first ← or_raise IndexError (cycle !! min_idx);
  let normalized :=
    drop min_idx (all_but_last cycle) ++ take min_idx cycle ++ [first] in
  Ok (if decide (normalized ∈ cycles) then cycles
      else cycles ++ [normalized]).

(** [dfs(node, path)].  Python's recursion is unbounded here; [fuel] bounds
    the depth of the model, and [find_circular_dependencies] supplies more
    than a run can use. *)
Fixpoint dfs (modules : list (string * ModuleInfo)) (fuel : nat)
    (node : string) (path : list string) (st : dfs_state) : res dfs_state :=
  match fuel with
  | O => OutOfFuel
  | S fuel' =>
      if decide (node ∈ rec_stack st) then
        cs ← found_cycle node path (cycles st);
        Ok {| cycles := cs; visited := visited st;
              rec_stack := rec_stack st |}
      else if decide (node ∈ visited st) then Ok st
      else
        let st1 := {| cycles := cycles st;
                      visited := {[node]} ∪ visited st;
                      rec_stack := {[node]} ∪ rec_stack st |} in
        st2 ← match dict_get node modules with
              | Some module =>
                  foldM (λ s imported,
                           if dict_has imported modules
                           then dfs modules fuel' imported (path ++ [node]) s
                           else Ok s)
                        (imports module) st1
              | None => Ok st1
              end;
        (* rec_stack.remove(node) *)
        if decide (node ∈ rec_stack st2) then
          Ok {| cycles := cycles st2; visited := visited st2;
                rec_stack := rec_stack st2 ∖ {[node]} |}
        else Raise KeyError
  end.

(** [find_circular_dependencies] *)
Definition find_circular_dependencies (modules : list (string * ModuleInfo))
  : res (list (list string)) :=
  st ← foldM (λ s module_path,
                if decide (module_path ∈ visited s) then Ok s
                else dfs modules (S (length modules)) module_path [] s)
         (dict_keys modules)
         {| cycles := []; visited := ∅; rec_stack := ∅ |};
  Ok (cycles st).

(** ** analysis/git_analysis.py *)

Definition MAX_COMMITS : string := "1000".
Definition DAYS_OF_HISTORY : string := "365".

Definition TAB : ascii := "009"%char.
Definition LF : ascii := "010"%char.

(** The version-control tool as the scripts see it: [git args] is what
    [subprocess.run(["git"] + args, check=True, timeout=60)] does, the
    standard output or the exception raised. *)
Definition git_tool : Type := list string → res string.

(** [run_git_command] *)
Definition run_git_command (git : git_tool) (args : list string)
  : res string := git args.

(** [get_tracked_files] *)
Definition get_tracked_files (git : git_tool) : res (list string) :=
  output ← run_git_command git ["ls-files"];
  Ok (if decide (strip output = "") then []
      else split_char LF (strip output)).

(** *** FileStats *)

Record FileStats : Type := {
  fs_path : string;
  change_count : nat;
  lines_added : Z;
  lines_removed : Z;
  authors : list string;
  last_modified : option Z;
  first_seen : option Z;
}.

Definition churn (s : FileStats) : Z := (lines_added s + lines_removed s)%Z.
Definition author_count (s : FileStats) : nat := length (authors s).

Definition new_FileStats (p : string) : FileStats :=
  {| fs_path := p; change_count := 0; lines_added := 0; lines_removed := 0;
     authors := []; last_modified := None; first_seen := None |}.

Definition skip_patterns : list string :=
  ["node_modules/"; "dist/"; ".vscode-test/"; "__pycache__/"; ".git/";
   "package-lock.json"; ".vsix"; "/test/"; "/tests/"; "/__tests__/";
   "/mocks/"].

Definition test_dirs : list string := ["test"; "tests"; "__tests__"; "mocks"].

(** [_should_skip_file], with [pathlib.Path] in its POSIX flavour. *)
Definition _should_skip_file (filepath : string) : bool :=
  let normalized_path := replace_char "\"%char "/" filepath in
  if existsb (λ pattern, contains pattern normalized_path) skip_patterns
  then true
  else
    let parts := path_components filepath in
    let filename := default "" (last parts) in
    if startswith "test_" filename
       || endswith "_test.py" filename
       || endswith "_tests.py" filename
       || contains ".test." filename
       || contains ".spec." filename
    then true
    else existsb (λ part, bool_decide (part ∈ test_dirs)) (all_but_last parts).

(** *** analyze_git_log *)

(** The fold of one accepted numstat entry into the statistics of its file:
    lines 182-195. *)
Definition record_change (filepath : string) (added removed : Z)
    (commit_date : Z) (author : string)
    (file_stats : list (string * FileStats)) : list (string * FileStats) :=
  let stats := default (new_FileStats filepath) (dict_get filepath file_stats) in
  dict_set filepath
    {| fs_path := fs_path stats;
       change_count := change_count stats + 1;
       lines_added := lines_added stats + added;
       lines_removed := lines_removed stats + removed;
       authors := set_add author (authors stats);
       last_modified :=
         match last_modified stats with
         | None => Some commit_date
         | Some d => if (d <? commit_date)%Z then Some commit_date else Some d
         end;
       first_seen :=
         match first_seen stats with
         | None => Some commit_date
         | Some d => if (commit_date <? d)%Z then Some commit_date else Some d
         end |}
    file_stats.

Section git_log.

(** [datetime.fromisoformat], to the instant it denotes; [None] is
    [ValueError].  [git log] prints [%aI] with a UTC offset, so all
    timestamps are comparable. *)
Variable fromisoformat : string → option Z.

(** The part of the loop body below the header check: one numstat line
    [added TAB removed TAB filepath]. *)
Definition numstat_line (tracked_files : list string)
    (info : string * Z * string) (line : string)
    (file_stats : list (string * FileStats)) : list (string * FileStats) :=
  match split_char TAB line with
  | added :: removed :: filepath :: _ =>
      if bool_decide (added = "-") || bool_decide (removed = "-")
      then file_stats
      else if negb (bool_decide (filepath ∈ tracked_files)) then file_stats
      else if _should_skip_file filepath then file_stats
      else
        match py_int added, py_int removed with
        | Some lines_added, Some lines_removed =>
            let '(_, commit_date, author) := info in
            record_change filepath lines_added lines_removed commit_date
              author file_stats
        | _, _ => file_stats
        end
  | _ => file_stats
  end.

(** One iteration of [for line in log_output.split(LF)]; the state is
    [file_stats] and [current_commit_info]. *)
Definition git_log_line (tracked_files : list string)
    (st : list (string * FileStats) * option (string * Z * string))
    (raw : string)
  : list (string * FileStats) * option (string * Z * string) :=
  let '(file_stats, current_commit_info) := st in
  let line := strip raw in
  if decide (line = "") then st
  else
    match (if decide (count_char "|" line = 2)
           then split_char "|" line else []) with
    | [commit_hash; date_str; author] =>
        match fromisoformat (replace_char "Z" "+00:00" date_str) with
        | Some commit_date =>
            (file_stats, Some (commit_hash, commit_date, author))
        | None => (file_stats, None)
        end
    | _ =>
        match current_commit_info with
        | Some info =>
            if contains (String TAB "") line
            then (numstat_line tracked_files info line file_stats,
                  current_commit_info)
            else st
        | None => st
        end
    end.

Definition numstat_args : list string :=
  ["log"; "--since=" +:+ DAYS_OF_HISTORY +:+ " days ago";
   "-n" +:+ MAX_COMMITS; "--numstat"; "--format=%H|%aI|%aN"; "--no-merges"].

(** [analyze_git_log].  Only the retrieval of the log is inside [try], and
    only [CalledProcessError] is handled there. *)
Definition analyze_git_log (git : git_tool)
  : res (list (string * FileStats)) :=
  match run_git_command git numstat_args with
  | Raise CalledProcessError => Ok []
  | outcome =>
      log_output ← outcome;
      tracked_files ← get_tracked_files git;
      Ok (fold_left (git_log_line tracked_files)
            (split_char LF log_output) ([], None)).1
  end.

End git_log.

(** *** Temporal coupling *)

Record TemporalCoupling : Type := {
  file1 : string;
  file2 : string;
  coupled_commits : nat;
  coupling_ratio : Q;   (* coupled_commits / min(file1_changes, file2_changes) *)
}.

Definition is_hex (c : ascii) : bool :=
  bool_decide (c ∈ list_ascii_of_string "0123456789abcdef").

(** [len(line) == 40 and all(c in "0123456789abcdef" for c in line)] *)
Definition is_commit_hash (line : string) : bool :=
  bool_decide (String.length line = 40%nat)
  && forallb is_hex (list_ascii_of_string line).

(** The state of the first loop of [analyze_temporal_coupling]. *)
Record coupling_scan : Type := {
  commit_files : list (string * list string);
  file_change_count : list (string * nat);
  current_commit : option string;
}.

(** One iteration of [for line in log_output.split(LF)], lines 284-295. *)
Definition name_only_line (tracked_files : list string)
    (st : coupling_scan) (raw : string) : coupling_scan :=
  let line := strip raw in
  if decide (line = "") then st
  else if is_commit_hash line then
    {| commit_files := commit_files st;
       file_change_count := file_change_count st;
       current_commit := Some line |}
  else
    match current_commit st with
    | Some commit =>
        (* the empty hash is falsy; it cannot be a commit hash *)
        if bool_decide (commit ≠ "")
           && bool_decide (line ∈ tracked_files)
           && negb (_should_skip_file line)
        then {| commit_files :=
                  dict_upd [] (set_add line) commit (commit_files st);
                file_change_count :=
                  dict_upd 0%nat S line (file_change_count st);
                current_commit := current_commit st |}
        else st
    | None => st
    end.

(** [for i, file1 in enumerate(file_list): for file2 in file_list[i+1:]] *)
Fixpoint pairs_after (file_list : list string) : list (string * string) :=
  match file_list with
  | [] => []
  | file1 :: rest => ((λ file2, (file1, file2)) <$> rest) ++ pairs_after rest
  end.

(** [sorted(files)] on strings. *)
Definition sorted_strings (files : list string) : list string :=
  stable_sort String.leb files.

(** The second loop: lines 298-304. *)
Definition count_couplings (commit_files : list (string * list string))
  : list (string * string * nat) :=
  fold_left (λ coupling_count files,
               fold_left (λ cc pair, dict_upd 0%nat S pair cc)
                 (pairs_after (sorted_strings files)) coupling_count)
    (dict_values commit_files) [].

(** [count / min_changes if min_changes > 0 else 0], lines 313-314. *)
Definition ratio_of (count changes1 changes2 : nat) : Q :=
  let min_changes := Nat.min changes1 changes2 in
  if (0 <? min_changes)%nat
  then (inject_Z (Z.of_nat count) / inject_Z (Z.of_nat min_changes))%Q
  else 0%Q.

(** The third loop: lines 307-324. *)
Definition select_couplings (min_coupling : nat) (min_ratio : Q)
    (file_change_count : list (string * nat))
    (coupling_count : list (string * string * nat)) : list TemporalCoupling :=
  omap (λ item : string * string * nat,
          let '(f1, f2, count) := item in
          if (count <? min_coupling)%nat then None
          else
            let ratio :=
              ratio_of count (default 0%nat (dict_get f1 file_change_count))
                (default 0%nat (dict_get f2 file_change_count)) in
            if Qle_bool min_ratio ratio
            then Some {| file1 := f1; file2 := f2; coupled_commits := count;
                         coupling_ratio := ratio |}
            else None)
       coupling_count.

(** Order of the keys [(c.coupling_ratio, c.coupled_commits)]:
    [coupling_key_le x y] is [key x <= key y] on tuples. *)
Definition coupling_key_le (x y : TemporalCoupling) : bool :=
  if Qeq_bool (coupling_ratio x) (coupling_ratio y)
  then (coupled_commits x <=? coupled_commits y)%nat
  else Qle_bool (coupling_ratio x) (coupling_ratio y).

Definition name_only_args : list string :=
  ["log"; "--since=" +:+ DAYS_OF_HISTORY +:+ " days ago";
   "-n" +:+ MAX_COMMITS; "--name-only"; "--format=%H"; "--no-merges"].

(** What the scan of the log leaves behind. *)
Definition scan_name_only (tracked_files : list string) (log_output : string)
  : coupling_scan :=
  fold_left (name_only_line tracked_files) (split_char LF log_output)
    {| commit_files := []; file_change_count := []; current_commit := None |}.

(** Lines 297-328: from the scanned log to the reported couplings. *)
Definition couplings_of_scan (min_coupling : nat) (min_ratio : Q)
    (scan : coupling_scan) : list TemporalCoupling :=
  let coupling_count := count_couplings (commit_files scan) in
  let couplings :=
    select_couplings min_coupling min_ratio (file_change_count scan)
      coupling_count in
  take 50 (stable_sort (λ x y, coupling_key_le y x) couplings).

(** [analyze_temporal_coupling]; the defaults are [min_coupling = 3] and
    [min_ratio = 0.3]. *)
Definition analyze_temporal_coupling (git : git_tool)
    (min_coupling : nat) (min_ratio : Q) : res (list TemporalCoupling) :=
  match run_git_command git name_only_args with
  | Raise CalledProcessError => Ok []
  | outcome =>
      log_output ← outcome;
      tracked_files ← get_tracked_files git;
      Ok (couplings_of_scan min_coupling min_ratio
            (scan_name_only tracked_files log_output))
  end.

(** *** Bus factor, hotspots, the git report *)

(** [round(q, places)], taken on the exact quotient: the nearest multiple
    of [10 ^ -places], a tie going to the even one.  The interpreter rounds
    the binary64 value instead; the two agree except where the exact
    quotient is a decimal tie that binary64 cannot represent. *)
Definition round_to (places : nat) (q : Q) : Q :=
  let scale := (10 ^ Z.of_nat places)%Z in
  let n := (Qnum q * scale)%Z in
  let d := Zpos (Qden q) in
  let lo := (n / d)%Z in
  let twice := (2 * (n mod d))%Z in
  let k := if (twice <? d)%Z then lo
           else if (d <? twice)%Z then (lo + 1)%Z
           else if Z.even lo then lo else (lo + 1)%Z in
  (k # Z.to_pos scale)%Q.

Definition round3 (q : Q) : Q := round_to 3 q.

Record knowledge_silo : Type := {
  silo_path : string;
  sole_author : string;
}.

Record bus_factor_report : Type := {
  total_authors : nat;
  single_author_file_count : nat;
  single_author_file_ratio : Q;
  knowledge_silos : list knowledge_silo;
}.

(** [calculate_bus_factor] *)
Definition calculate_bus_factor (file_stats : list (string * FileStats))
  : res bus_factor_report :=
  let all_authors :=
    fold_left (λ acc stats, fold_left (λ a x, set_add x a) (authors stats) acc)
      (dict_values file_stats) [] in
  let single_author_files :=
    fs_path <$> List.filter (λ stats, bool_decide (author_count stats = 1%nat))
                  (dict_values file_stats) in
  silos ← foldM (λ acc stats,
      if bool_decide (author_count stats = 1%nat)
         && (3 <=? change_count stats)%nat
      then
        author ← or_raise IndexError (head (sorted_strings (authors stats)));
        Ok (acc ++ [ {| silo_path := fs_path stats; sole_author := author |} ])
      else Ok acc) (dict_values file_stats) [];
  (* the sort key reads file_stats[x["path"]] *)
  keyed ← foldM (λ acc silo,
      stats ← or_raise KeyError (dict_get (silo_path silo) file_stats);
      Ok (acc ++ [(change_count stats, silo)])) silos [];
  let sorted_silos :=
    snd <$> stable_sort
              (λ x y : nat * knowledge_silo, (y.1 <=? x.1)%nat) keyed in
  Ok {| total_authors := length all_authors;
        single_author_file_count := length single_author_files;
        single_author_file_ratio :=
          match file_stats with
          | [] => 0%Q
          | _ => round3 (inject_Z (Z.of_nat (length single_author_files))
                         / inject_Z (Z.of_nat (length file_stats)))
          end;
        knowledge_silos := take 20 sorted_silos |}.

(** The entries of [FileStats.to_dict] that a later stage reads.  The
    timestamps and [age_days] (which depends on the clock) are left out. *)
Record hotspot : Type := {
  hs_path : string;
  hs_change_count : Z;
  hs_lines_added : Z;
  hs_lines_removed : Z;
  hs_churn : Z;
  hs_author_count : nat;
  hs_authors : list string;
}.

Definition to_dict (s : FileStats) : hotspot :=
  {| hs_path := fs_path s;
     hs_change_count := Z.of_nat (change_count s);
     hs_lines_added := lines_added s;
     hs_lines_removed := lines_removed s;
     hs_churn := churn s;
     hs_author_count := author_count s;
     hs_authors := sorted_strings (authors s) |}.

(** [key x <= key y] for the key [(s.change_count, s.churn)]. *)
Definition hotspot_key_le (x y : FileStats) : bool :=
  if (change_count x =? change_count y)%nat then (churn x <=? churn y)%Z
  else (change_count x <=? change_count y)%nat.

(** [get_hotspots] *)
Definition get_hotspots (file_stats : list (string * FileStats))
    (top_n : nat) : list hotspot :=
  to_dict <$> take top_n (stable_sort (λ x y, hotspot_key_le y x)
                            (dict_values file_stats)).

Record git_summary : Type := {
  files_analyzed : nat;
  total_changes : nat;
  total_churn : Z;
}.

Record git_data : Type := {
  hotspots : list hotspot;
  temporal_coupling : list TemporalCoupling;
  bus_factor : bus_factor_report;
  git_report_summary : git_summary;
}.

Definition coupling_to_dict (c : TemporalCoupling) : TemporalCoupling :=
  {| file1 := file1 c; file2 := file2 c;
     coupled_commits := coupled_commits c;
     coupling_ratio := round3 (coupling_ratio c) |}.

Section git_report.
Variable fromisoformat : string → option Z.

(** [analyze_repository] *)
Definition analyze_repository (git : git_tool) : res git_data :=
  file_stats ← analyze_git_log fromisoformat git;
  couplings ← analyze_temporal_coupling git 3 (3 # 10);
  bus ← calculate_bus_factor file_stats;
  let hot := get_hotspots file_stats 30 in
  Ok {| hotspots := hot;
        temporal_coupling := coupling_to_dict <$> couplings;
        bus_factor := bus;
        git_report_summary :=
          {| files_analyzed := length file_stats;
             total_changes :=
               foldr Nat.add 0%nat (change_count <$> dict_values file_stats);
             total_churn :=
               foldr Z.add 0%Z (churn <$> dict_values file_stats) |} |}.

End git_report.

(** ** analysis/snapshot.py *)

(** One entry of the complexity collaborator's [by_language] lists. *)
Record file_complexity : Type := {
  cx_path : string;
  max_complexity : Z;
  avg_complexity : Q;
  code_lines : Z;
}.

Record complexity_data : Type := {
  by_language : list (string * list file_complexity);
}.

Record priority_hotspot : Type := {
  ph_path : string;
  ph_change_count : Z;
  ph_churn : Z;
  ph_max_complexity : Z;
  ph_avg_complexity : Q;
  ph_code_lines : Z;
  priority_score : Z;
}.

(** [priority_score = change_count * max_complexity] *)
Definition score (change_count max_complexity : Z) : Z :=
  (change_count * max_complexity)%Z.

(** The body of the loop over the hotspots: lines 98-117. *)
Definition priority_entry
    (complexity_by_path : list (string * file_complexity)) (h : hotspot)
  : priority_hotspot :=
  let complexity_info := dict_get (hs_path h) complexity_by_path in
  let change_count := hs_change_count h in
  let max_cx := default 1%Z (max_complexity <$> complexity_info) in
  {| ph_path := hs_path h;
     ph_change_count := change_count;
     ph_churn := hs_churn h;
     ph_max_complexity := max_cx;
     ph_avg_complexity := default 0%Q (avg_complexity <$> complexity_info);
     ph_code_lines := default 0%Z (code_lines <$> complexity_info);
     priority_score := score change_count max_cx |}.

(** [compute_priority_hotspots] *)
Definition compute_priority_hotspots (git : git_data)
    (complexity : complexity_data) : list priority_hotspot :=
  let complexity_by_path :=
    fold_left (λ acc lang_files,
                 fold_left (λ a file_data, dict_set (cx_path file_data)
                                             file_data a) lang_files acc)
      (dict_values (by_language complexity)) [] in
  let priority_hotspots := priority_entry complexity_by_path <$> hotspots git in
  take 20 (stable_sort (λ x y, (priority_score y <=? priority_score x)%Z)
             priority_hotspots).

(** *** Reports on the graph (dependency_analysis.py, continued) *)

Record coupled_module : Type := {
  cm_path : string;
  cm_fan_out : nat;
  cm_imports : list string;
}.

(** [find_highly_coupled_modules]; the default threshold is 10. *)
Definition find_highly_coupled_modules (modules : list (string * ModuleInfo))
    (threshold : nat) : list coupled_module :=
  let highly_coupled :=
    omap (λ item : string * ModuleInfo,
            if (threshold <? fan_out item.2)%nat
            then Some {| cm_path := item.1; cm_fan_out := fan_out item.2;
                         cm_imports := sorted_strings (imports item.2) |}
            else None) modules in
  stable_sort (λ x y, (cm_fan_out y <=? cm_fan_out x)%nat) highly_coupled.

Record hub_module : Type := {
  hub_path : string;
  hub_fan_in : nat;
  hub_imported_by : list string;
}.

(** [find_hub_modules]; the default threshold is 10. *)
Definition find_hub_modules (modules : list (string * ModuleInfo))
    (threshold : nat) : list hub_module :=
  let hubs :=
    omap (λ item : string * ModuleInfo,
            if (threshold <? fan_in item.2)%nat
            then Some {| hub_path := item.1; hub_fan_in := fan_in item.2;
                         hub_imported_by :=
                           sorted_strings (imported_by item.2) |}
            else None) modules in
  stable_sort (λ x y, (hub_fan_in y <=? hub_fan_in x)%nat) hubs.

Definition layer_order : list string :=
  ["common"; "utils"; "api"; "models"; "services"; "features"; "views";
   "managers"].

(** [c.lower()] on an ASCII letter. *)
Definition lower_char (c : ascii) : ascii :=
  let n := nat_of_ascii c in
  if ((65 <=? n) && (n <=? 90))%nat then ascii_of_nat (n + 32) else c.

(** [s.lower()] on ASCII text. *)
Definition lower (s : string) : string :=
  string_of_list_ascii (lower_char <$> list_ascii_of_string s).

(** [get_layer]: the index of the first layer name, in the order of
    [layer_order], that is a segment of the path; unknown paths get the
    highest index. *)
Definition get_layer (p : string) : nat :=
  let parts := split_char "/" (lower p) in
  default (length layer_order)
    (fst <$> List.find (λ il : nat * string, bool_decide (il.2 ∈ parts))
               (imap (λ i layer, (i, layer)) layer_order)).

Definition layer_name (i : nat) : string :=
  default "unknown" (layer_order !! i).

Record layer_violation : Type := {
  lv_from : string;
  lv_from_layer : string;
  lv_imports : string;
  lv_imports_layer : string;
}.

(** [compute_layer_violations] *)
Definition compute_layer_violations (modules : list (string * ModuleInfo))
  : list layer_violation :=
  modules ≫= λ item,
    let module_layer := get_layer item.1 in
    omap (λ imported_path,
            let imported_layer := get_layer imported_path in
            if (module_layer <? imported_layer)%nat
            then Some {| lv_from := item.1;
                         lv_from_layer := layer_name module_layer;
                         lv_imports := imported_path;
                         lv_imports_layer := layer_name imported_layer |}
            else None) (imports item.2).

(** [ModuleInfo.to_dict] *)
Record module_details : Type := {
  md_path : string;
  md_fan_out : nat;
  md_fan_in : nat;
  md_instability : Q;
  md_imports : list string;
  md_imported_by : list string;
}.

Definition module_to_dict (m : ModuleInfo) : module_details :=
  {| md_path := path m; md_fan_out := fan_out m; md_fan_in := fan_in m;
     md_instability := round3 (instability m);
     md_imports := sorted_strings (imports m);
     md_imported_by := sorted_strings (imported_by m) |}.

(** [key x <= key y] for the key [(m["instability"], m["fan_out"])]. *)
Definition details_key_le (x y : module_details) : bool :=
  if Qeq_bool (md_instability x) (md_instability y)
  then (md_fan_out x <=? md_fan_out y)%nat
  else Qle_bool (md_instability x) (md_instability y).

Record dependency_summary : Type := {
  total_modules : nat;
  total_dependencies : nat;
  avg_fan_out : Q;
  avg_fan_in : Q;
  max_fan_out : nat;
  max_fan_in : nat;
  circular_dependency_count : nat;
  highly_coupled_count : nat;
  hub_module_count : nat;
}.

(** [round(sum(l) / len(l), 2) if l else 0] *)
Definition average2 (l : list nat) : Q :=
  match l with
  | [] => 0%Q
  | _ => round_to 2 (inject_Z (Z.of_nat (sum_list l))
                     / inject_Z (Z.of_nat (length l)))
  end.

Record dependency_data : Type := {
  dep_summary : dependency_summary;
  circular_dependencies : list (list string);
  highly_coupled_modules : list coupled_module;
  hub_modules : list hub_module;
  layer_violations : list layer_violation;
  top_modules_by_instability : list module_details;
}.

(** [analyze_dependencies] *)
Definition analyze_dependencies (fs : file_system) (repo_root : list string)
    (gitignore : option (string → bool)) : res dependency_data :=
  modules ← build_dependency_graph fs repo_root gitignore;
  circular_deps ← find_circular_dependencies modules;
  let highly_coupled := find_highly_coupled_modules modules 10 in
  let hubs := find_hub_modules modules 10 in
  let violations := compute_layer_violations modules in
  let fan_outs := fan_out <$> dict_values modules in
  let fan_ins := fan_in <$> dict_values modules in
  Ok {| dep_summary :=
          {| total_modules := length modules;
             total_dependencies := sum_list fan_outs;
             avg_fan_out := average2 fan_outs;
             avg_fan_in := average2 fan_ins;
             max_fan_out := max_list fan_outs;
             max_fan_in := max_list fan_ins;
             circular_dependency_count := length circular_deps;
             highly_coupled_count := length highly_coupled;
             hub_module_count := length hubs |};
        circular_dependencies := take 20 circular_deps;
        highly_coupled_modules := take 20 highly_coupled;
        hub_modules := take 20 hubs;
        layer_violations := take 30 violations;
        top_modules_by_instability :=
          take 30 (stable_sort (λ x y, details_key_le y x)
                     (module_to_dict <$> dict_values modules)) |}.

(** What a run of the entry point can observe. *)
Record world (debt_data : Type) : Type := {
  repo_root : list string;
  files : file_system;
  dot_git_exists : bool;             (* [(repo_root / ".git").exists()] *)
  gitignore : option (string → bool);
  git : git_tool;
  parse_date : string → option Z;    (* [datetime.fromisoformat] *)
  complexity : res complexity_data;  (* [analyze_complexity(repo_root)] *)
  debt : res debt_data;              (* [analyze_debt(repo_root)] *)
  write_output : res unit;           (* creating and writing the JSON file *)
}.

Arguments repo_root {debt_data} w.
Arguments files {debt_data} w.
Arguments dot_git_exists {debt_data} w.
Arguments gitignore {debt_data} w.
Arguments git {debt_data} w.
Arguments parse_date {debt_data} w.
Arguments complexity {debt_data} w.
Arguments debt {debt_data} w.
Arguments write_output {debt_data} w.

(** The snapshot without its [metadata] (commit id, clock) and without the
    [summary], which only copies counts out of the other fields. *)
Record snapshot (debt_data : Type) : Type := {
  snap_priority_hotspots : list priority_hotspot;
  git_analysis : git_data;
  snap_complexity : complexity_data;
  debt_indicators : debt_data;
  dependencies : dependency_data;
}.

Arguments snap_priority_hotspots {debt_data} s.
Arguments git_analysis {debt_data} s.
Arguments snap_complexity {debt_data} s.
Arguments debt_indicators {debt_data} s.
Arguments dependencies {debt_data} s.

(** [generate_snapshot] *)
Definition generate_snapshot {D : Type} (w : world D) : res (snapshot D) :=
  git_report ← analyze_repository (parse_date w) (git w);
  complexity_report ← complexity w;
  debt_report ← debt w;
  dependency_report ← analyze_dependencies (files w) (repo_root w) (gitignore w);
  let priority_hotspots :=
    compute_priority_hotspots git_report complexity_report in
  _ ← write_output w;
  Ok {| snap_priority_hotspots := priority_hotspots;
        git_analysis := git_report;
        snap_complexity := complexity_report;
        debt_indicators := debt_report;
        dependencies := dependency_report |}.

(** [main]: the exit status and, when one was produced, the snapshot.
    [except Exception] catches every exception of the model. *)
Definition main {D : Type} (w : world D) : res (Z * option (snapshot D)) :=
  if negb (dot_git_exists w) then Ok (1%Z, None)
  else
    match generate_snapshot w with
    | Ok s => Ok (0%Z, Some s)
    | Raise _ => Ok (1%Z, None)
    | OutOfFuel => OutOfFuel
    end.

(** ** Scenarios of the specification *)




(** ** Notions used in the statements *)

(** What [found_cycle] adds to the list of cycles. *)
Definition record_once (c : list string) (cycles : list (list string))
  : list (list string) :=
  if decide (c ∈ cycles) then cycles else cycles ++ [c].

Definition keys_set (modules : list (string * ModuleInfo)) : gset string :=
  list_to_set (dict_keys modules).


(** The reverse edges of [mods] are edges of [modules0], and the forward
    edges of both are the same. *)
Definition linked (modules0 mods : list (string * ModuleInfo)) : Prop :=
  (∀ p, imports <$> dict_get p mods = imports <$> dict_get p modules0)
  ∧ ∀ p m q, dict_get p mods = Some m → q ∈ imported_by m →
             ∃ mq, dict_get q modules0 = Some mq ∧ p ∈ imports mq.

(** Text of several lines. *)
Definition lines (l : list string) : string := join (String LF "") l.

(** *** A run whose history query ends with [outcome] *)

Definition scenario_files : file_system :=
  [ (["repo"], Dir);
    (["repo"; "src"], Dir);
    (["repo"; "src"; "a.ts"], File ["./b"]);
    (["repo"; "src"; "b.ts"], File ["./a"]) ].

Definition scenario_world (outcome : res string) : world unit :=
  {| repo_root := ["repo"];
     files := scenario_files;
     dot_git_exists := true;
     gitignore := None;
     git := λ args, if decide (args = ["ls-files"])
                    then Ok (lines ["src/a.ts"; "src/b.ts"])
                    else outcome;
     parse_date := λ _, Some 0%Z;
     complexity := Ok {| by_language := [] |};
     debt := Ok ();
     write_output := Ok () |}.

(** *** The commit stream, as the specification speaks of it *)

(** One non-merge commit inside the window, with its numstat entries
    ([added], [removed], [path]); a binary file has ["-"] for both counts. *)
Record commit : Type := {
  c_hash : string;
  c_date : string;
  c_author : string;
  c_entries : list (string * string * string);
}.

(** What [git log --numstat --format=%H|%aI|%aN] prints for the commits. *)
Definition render_numstat_log (commits : list commit) : string :=
  lines (commits ≫= λ c,
    [c_hash c +:+ "|" +:+ c_date c +:+ "|" +:+ c_author c; ""]
    ++ ((λ e : string * string * string,
           e.1.1 +:+ String TAB (e.1.2 +:+ String TAB e.2)) <$> c_entries c)
    ++ [""]).

(** An entry counts for [f] when it is for [f], is not marked binary, [f]
    is tracked and not excluded. *)
Definition counted_entry (tracked_files : list string) (f : string)
    (e : string * string * string) : bool :=
  bool_decide (e.2 = f)
  && negb (bool_decide (e.1.1 = "-") || bool_decide (e.1.2 = "-"))
  && bool_decide (f ∈ tracked_files)
  && negb (_should_skip_file f).

(** The number of distinct commits of the stream that touch [f], after
    exclusion filtering. *)
Definition spec_change_count (tracked_files : list string)
    (commits : list commit) (f : string) : nat :=
  length (remove_dups
            (c_hash <$> List.filter
                          (λ c, existsb (counted_entry tracked_files f)
                                  (c_entries c)) commits)).

Definition hash_of (c : ascii) : string :=
  string_of_list_ascii (replicate 40 c).

(** Two commits touch [src/app.ts]; the author of the newer one has a
    vertical bar in the name. *)
Definition pipe_commits (newer_author : string) : list commit :=
  [ {| c_hash := hash_of "a"; c_date := "2024-03-02T10:00:00+00:00";
       c_author := newer_author;
       c_entries := [("3", "1", "src/app.ts")] |};
    {| c_hash := hash_of "b"; c_date := "2024-03-01T09:30:00+00:00";
       c_author := "Lee";
       c_entries := [("2", "2", "src/app.ts")] |} ].

Definition pipe_git (newer_author : string) : git_tool :=
  λ args, if decide (args = ["ls-files"]) then Ok "src/app.ts"
          else Ok (render_numstat_log (pipe_commits newer_author)).

(** The two dates of [pipe_commits], as seconds since the epoch. *)
Definition scenario_dates (s : string) : option Z :=
  if decide (s = "2024-03-02T10:00:00+00:00") then Some 1709373600%Z
  else if decide (s = "2024-03-01T09:30:00+00:00") then Some 1709285400%Z
  else None.

(** The change count of every file of a history-mining result. *)
Definition change_counts (outcome : res (list (string * FileStats)))
  : res (list (string * nat)) :=
  match outcome with
  | Ok stats =>
      Ok ((λ item : string * FileStats, (item.1, change_count item.2))
            <$> stats)
  | Raise e => Raise e
  | OutOfFuel => OutOfFuel
  end.




(** [file_change_count[f]] on the [defaultdict]. *)
Definition changes_of (scan : coupling_scan) (f : string) : nat :=
  default 0%nat (dict_get f (file_change_count scan)).

(** How often [x] occurs in [l]. *)
Definition occ {A : Type} `{EqDecision A} (x : A) (l : list A) : nat :=
  length (filter (λ y, y = x) l).

(** Counting the keys [l] into a [defaultdict(int)]. *)
Definition tally {K : Type} `{EqDecision K} (l : list K)
    (d : list (K * nat)) : list (K * nat) :=
  fold_left (λ cc k, dict_upd 0%nat S k cc) l d.

(** In how many of the file sets [f] occurs. *)
Definition commits_with (f : string) (sets : list (list string)) : nat :=
  sum_list (occ f <$> sets).

(** The scan keeps duplicate-free file sets, and no file is in more sets
    than it was counted. *)
Definition scan_ok (st : coupling_scan) : Prop :=
  Forall NoDup (dict_values (commit_files st))
  ∧ ∀ f, (commits_with f (dict_values (commit_files st)) ≤ changes_of st f)%nat.


(** * Further definitions *)

(** ** Import chains *)




(** ** The two passes of [build_dependency_graph], by name *)

(** The files that the loops over [extensions] collect. *)
Definition source_files_of (fs : file_system) (repo_root : list string)
    (gitignore : option (string → bool)) : list (list string) :=
  mbind (M := list) (λ ext,
      List.filter (λ filepath, should_analyze_file filepath repo_root gitignore)
        (rglob fs repo_root ext))
    [".ts"; ".tsx"; ".js"; ".jsx"].

(** [filepath.relative_to(repo_root).as_posix()] *)
Definition module_key (repo_root filepath : list string) : string :=
  as_posix (default [] (relative_to repo_root filepath)).

(** The body of the first pass. *)
Definition first_pass (fs : file_system) (repo_root : list string)
    (modules : list (string * ModuleInfo)) (filepath : list string)
  : res (list (string * ModuleInfo)) :=
  imports ← extract_imports_typescript fs filepath repo_root;
  Ok (dict_set (module_key repo_root filepath)
        {| path := module_key repo_root filepath; imports := imports;
           imported_by := [] |}
        modules).

(** The second pass. *)
Definition second_pass (modules : list (string * ModuleInfo))
  : list (string * ModuleInfo) :=
  fold_left (λ (mods : list (string * ModuleInfo))
               (item : string * ModuleInfo),
               link_imports item.1 (imports item.2) mods)
    modules modules.

(** [mods'] has the modules of [mods], with the same paths and imports and
    at least the same importers. *)
Definition more_importers (mods mods' : list (string * ModuleInfo)) : Prop :=
  ∀ q, match dict_get q mods, dict_get q mods' with
       | Some m, Some m' =>
           path m' = path m ∧ imports m' = imports m
           ∧ ∀ x, x ∈ imported_by m → x ∈ imported_by m'
       | None, None => True
       | _, _ => False
       end.

(** ** Invariants of the history mining *)

(** What holds for the statistics [s] kept under the path [f]. *)
Definition stats_ok (tracked_files : list string) (f : string)
    (s : FileStats) : Prop :=
  fs_path s = f
  ∧ f ∈ tracked_files
  ∧ _should_skip_file f = false
  ∧ (1 ≤ change_count s)%nat
  ∧ (1 ≤ author_count s)%nat
  ∧ (author_count s ≤ change_count s)%nat
  ∧ NoDup (authors s)
  ∧ ∃ first last,
      first_seen s = Some first ∧ last_modified s = Some last
      ∧ (first ≤ last)%Z.

(** [a] ranks at least as high as [b] among the hotspots: more changes, or
    as many changes and at least as much churn. *)
Definition hotter (a b : FileStats) : Prop :=
  (change_count b < change_count a)%nat
  ∨ (change_count b = change_count a ∧ (churn b ≤ churn a)%Z).

(** The change count that the sort of the knowledge silos reads for a silo:
    [file_stats[x["path"]].change_count]. *)
Definition silo_changes (file_stats : list (string * FileStats))
    (silo : knowledge_silo) : nat :=
  default 0%nat (change_count <$> dict_get (silo_path silo) file_stats).

(** A silo stands for a file with one author and at least three changes. *)
Definition silo_of (file_stats : list (string * FileStats))
    (silo : knowledge_silo) : Prop :=
  ∃ s, s ∈ dict_values file_stats
       ∧ fs_path s = silo_path silo
       ∧ authors s = [sole_author silo]
       ∧ (3 ≤ change_count s)%nat.

(** The condition of the list comprehension that builds the silos:
    [stats.author_count == 1 and stats.change_count >= 3]. *)
Definition at_risk (stats : FileStats) : bool :=
  bool_decide (author_count stats = 1%nat) && (3 <=? change_count stats)%nat.

(** Every entry of [file_stats] is stored under its own path, as
    [analyze_git_log] leaves it. *)
Definition keyed_by_path (file_stats : list (string * FileStats)) : Prop :=
  Forall (λ entry : string * FileStats, fs_path entry.2 = entry.1) file_stats.

(** In how many of the commits' file sets both [f1] and [f2] occur. *)
Definition co_changes (sets : list (list string)) (f1 f2 : string) : nat :=
  length (filter (λ files, f1 ∈ files ∧ f2 ∈ files) sets).

(** What the first loop of [analyze_temporal_coupling] keeps: the current
    commit and every key of [commit_files] is a 40-digit hash, and every
    file set is non-empty and holds tracked files that are not skipped. *)
Definition scan_sets_ok (tracked_files : list string) (st : coupling_scan)
  : Prop :=
  (∀ commit, current_commit st = Some commit → is_commit_hash commit = true)
  ∧ Forall (λ entry : string * list string,
              is_commit_hash entry.1 = true
              ∧ entry.2 ≠ []
              ∧ Forall (λ f, f ∈ tracked_files ∧ _should_skip_file f = false)
                  entry.2)
      (commit_files st).

(** The order that [couplings.sort(key=..., reverse=True)] establishes:
    [stronger a b] is [key b <= key a] for the key
    [(coupling_ratio, coupled_commits)]. *)
Definition stronger (a b : TemporalCoupling) : Prop :=
  (coupling_ratio b < coupling_ratio a)%Q
  ∨ ((coupling_ratio b == coupling_ratio a)%Q
     ∧ (coupled_commits b ≤ coupled_commits a)%nat).

Definition pair_of (c : TemporalCoupling) : string * string :=
  (file1 c, file2 c).





(** The complexity records of all languages, in the order in which
    [compute_priority_hotspots] enters them into its lookup table. *)
Definition complexity_records (complexity : complexity_data)
  : list file_complexity :=
  concat (dict_values (by_language complexity)).

(** The record that the lookup table holds for [p]: the last one entered. *)
Definition complexity_of (complexity : complexity_data) (p : string)
  : option file_complexity :=
  last (filter (λ file_data, cx_path file_data = p)
          (complexity_records complexity)).

(** *** get_git_info (snapshot.py) *)






(** The forward and the reverse edges of a graph, as pairs
    (importing module, imported path). *)
Definition forward_edges (modules : list (string * ModuleInfo))
  : list (string * string) :=
  modules ≫= λ item, (λ q, (item.1, q)) <$> imports item.2.

Definition reverse_edges (modules : list (string * ModuleInfo))
  : list (string * string) :=
  modules ≫= λ item, (λ p, (p, item.1)) <$> imported_by item.2.

(** The integer that [round_to] puts over the power of ten: [n / d] rounded
    to the nearest integer, a tie going to the even one. *)
Definition round_half_even (n d : Z) : Z :=
  let lo := (n / d)%Z in
  let twice := (2 * (n mod d))%Z in
  if (twice <? d)%Z then lo
  else if (d <? twice)%Z then (lo + 1)%Z
  else if Z.even lo then lo else (lo + 1)%Z.


(** ** The order in which the search finishes modules *)



(** ** When a run succeeds *)


(** * Properties *)

(** ** The order on strings *)

Lemma ascii_compare_refl (c : ascii) : Ascii.compare c c = Eq.
Proof. unfold Ascii.compare. apply N.compare_refl. Qed.

Lemma string_compare_refl (s : string) : String.compare s s = Eq.
Proof.
  induction s as [|c s IH]; [done|]. cbn. by rewrite ascii_compare_refl.
Qed.

Lemma ascii_compare_lt_trans (a b c : ascii) :
  Ascii.compare a b = Lt → Ascii.compare b c = Lt → Ascii.compare a c = Lt.
Proof.
  unfold Ascii.compare. rewrite !N.compare_lt_iff. lia.
Qed.

Lemma string_compare_lt_trans (a b c : string) :
  String.compare a b = Lt → String.compare b c = Lt → String.compare a c = Lt.
Proof.
  revert b c. induction a as [|x a IH]; intros [|y b] [|z c]; cbn; try done.
  destruct (Ascii.compare x y) eqn:Hxy; try done.
  - apply Ascii.compare_eq_iff in Hxy as ->.
    destruct (Ascii.compare y z); try done. apply IH.
  - destruct (Ascii.compare y z) eqn:Hyz; try done.
    + apply Ascii.compare_eq_iff in Hyz as <-. by rewrite Hxy.
    + by rewrite (ascii_compare_lt_trans x y z).
Qed.

Lemma ltb_lt (a b : string) : String.ltb a b = true ↔ String.compare a b = Lt.
Proof. unfold String.ltb. destruct (String.compare a b); naive_solver. Qed.

Lemma ltb_irrefl (a : string) : String.ltb a a = false.
Proof. unfold String.ltb. by rewrite string_compare_refl. Qed.

Lemma ltb_ne (a b : string) : String.ltb a b = true → a ≠ b.
Proof. intros H ->. by rewrite ltb_irrefl in H. Qed.

Lemma leb_refl (a : string) : String.leb a a = true.
Proof. unfold String.leb. by rewrite string_compare_refl. Qed.

Lemma leb_ltb (a b : string) : String.leb a b = negb (String.ltb b a).
Proof.
  unfold String.leb, String.ltb. rewrite (String.compare_antisym b a).
  by destruct (String.compare a b).
Qed.

Lemma leb_cases (a b : string) :
  String.leb a b = true ↔ a = b ∨ String.ltb a b = true.
Proof.
  unfold String.leb, String.ltb.
  destruct (String.compare a b) eqn:H; split.
  - intros _. left. by apply String.compare_eq_iff.
  - done.
  - by right.
  - done.
  - done.
  - intros [->|?]; [|done]. by rewrite string_compare_refl in H.
Qed.

Lemma leb_trans (a b c : string) :
  String.leb a b = true → String.leb b c = true → String.leb a c = true.
Proof.
  rewrite !leb_cases, !ltb_lt. intros [->|Hab] [->|Hbc]; eauto.
  right. by eapply string_compare_lt_trans.
Qed.

(** ** Instability *)

(** C5.  The instability of a module lies between 0 and 1, it is the
    quotient of [fan_out] by [fan_in + fan_out] (stated as a product, which
    also covers the zero denominator), and it is 0 for a module with no
    imports and no importers. *)
Theorem instability_in_unit_interval (m : ModuleInfo) :
  (0 <= instability m)%Q ∧ (instability m <= 1)%Q
  ∧ (instability m * inject_Z (Z.of_nat (fan_in m + fan_out m))
     == inject_Z (Z.of_nat (fan_out m)))%Q
  ∧ ∀ p, (instability {| path := p; imports := []; imported_by := [] |} == 0)%Q.
Proof.
  unfold instability.
  destruct (Nat.eqb_spec (fan_in m + fan_out m) 0) as [Hz|Hnz].
  - split; [done|]. split; [done|]. split; [|done].
    rewrite Hz. assert (fan_out m = 0%nat) as -> by lia. done.
  - assert (0 < inject_Z (Z.of_nat (fan_in m + fan_out m)))%Q as Hpos.
    { rewrite <- (Zlt_Qlt 0). lia. }
    split; [|split; [|split]].
    + apply Qle_shift_div_l; [done|]. rewrite Qmult_0_l.
      rewrite <- (Zle_Qle 0). lia.
    + apply Qle_shift_div_r; [done|]. rewrite Qmult_1_l.
      rewrite <- Zle_Qle. lia.
    + field. intros Hq. rewrite Hq in Hpos. by apply Qlt_irrefl in Hpos.
    + done.
Qed.

(** ** Priority score *)

(** C9.  For non-negative inputs the priority score does not decrease when
    the change count grows with the complexity fixed, nor when the
    complexity grows with the change count fixed. *)
Theorem priority_score_monotone (x y fixed : Z) :
  (0 ≤ fixed)%Z → (0 ≤ x)%Z → (x ≤ y)%Z →
  (score x fixed ≤ score y fixed)%Z ∧ (score fixed x ≤ score fixed y)%Z.
Proof. unfold score. intros. nia. Qed.

Lemma priority_score_monotone_witness :
  (score 5 30 ≤ score 10 30)%Z ∧ (score 30 5 ≤ score 30 10)%Z.
Proof. apply (priority_score_monotone 5 10 30); lia. Defined.

(** ** Stable sorting *)

Section stable_sort_facts.
Context {A : Type} (le : A → A → bool).

Lemma insert_sorted_perm (x : A) (l : list A) :
  insert_sorted le x l ≡ₚ x :: l.
Proof.
  induction l as [|y l IH]; cbn; [done|].
  destruct (le x y); [done|]. rewrite IH. apply Permutation_swap.
Qed.

Lemma stable_sort_perm (l : list A) : stable_sort le l ≡ₚ l.
Proof.
  induction l as [|x l IH]; cbn; [done|].
  by rewrite insert_sorted_perm, IH.
Qed.

Lemma stable_sort_length (l : list A) : length (stable_sort le l) = length l.
Proof. by rewrite stable_sort_perm. Qed.



Hypothesis le_total : ∀ x y, le x y = false → le y x = true.
Hypothesis le_trans : ∀ x y z, le x y = true → le y z = true → le x z = true.

Lemma insert_sorted_sorted (x : A) (l : list A) :
  StronglySorted (λ a b, le a b = true) l →
  StronglySorted (λ a b, le a b = true) (insert_sorted le x l).
Proof.
  induction 1 as [|y l Hl IH Hy]; cbn.
  - repeat constructor.
  - destruct (le x y) eqn:Hxy.
    + constructor; [by constructor|].
      constructor; [done|]. eapply Forall_impl; [exact Hy|]. eauto.
    + constructor; [done|].
      rewrite insert_sorted_perm. constructor; [|done]. by apply le_total.
Qed.

Lemma stable_sort_sorted (l : list A) :
  StronglySorted (λ a b, le a b = true) (stable_sort le l).
Proof.
  induction l as [|x l IH]; cbn; [constructor|].
  by apply insert_sorted_sorted.
Qed.

End stable_sort_facts.

Lemma StronglySorted_mono {A : Type} (R R' : A → A → Prop) (l : list A) :
  (∀ a b, R a b → R' a b) → StronglySorted R l → StronglySorted R' l.
Proof.
  intros HR. induction 1 as [|x l Hl IH Hx]; constructor; [done|].
  eapply Forall_impl; [exact Hx|]. eauto.
Qed.

(** ** Priority hotspots *)



(** ** Lists the way Python indexes them *)

Lemma index_of_app_fresh {A : Type} `{EqDecision A} (x : A) (a b : list A) :
  x ∉ a → index_of x (a ++ x :: b) = Some (length a).
Proof.
  induction a as [|y a IH]; cbn; intros Hx.
  - by rewrite decide_True.
  - rewrite decide_False by set_solver. rewrite IH by set_solver. done.
Qed.

Lemma index_of_elem {A : Type} `{EqDecision A} (x : A) (l : list A) :
  x ∈ l →
  ∃ a b, l = a ++ x :: b ∧ (x ∉ a) ∧ index_of x l = Some (length a).
Proof.
  induction l as [|y l IH]; [by intros ?%elem_of_nil|].
  intros Hx. cbn. destruct (decide (x = y)) as [->|Hne].
  - exists [], l. split; [done|]. split; [apply not_elem_of_nil|done].
  - destruct IH as (a & b & -> & Ha & ->); [set_solver|].
    exists (y :: a), b. split; [done|]. split; [set_solver|done].
Qed.

Lemma all_but_last_snoc {A : Type} (l : list A) (x : A) :
  all_but_last (l ++ [x]) = l.
Proof.
  unfold all_but_last. rewrite length_app. cbn.
  replace (length l + 1 - 1)%nat with (length l) by lia.
  by rewrite take_app_length.
Qed.

Lemma fold_min_spec (l : list string) (x : string) :
  let m := fold_left (λ m y, if String.ltb y m then y else m) l x in
  m ∈ x :: l ∧ ∀ y, y ∈ x :: l → String.leb m y = true.
Proof.
  revert x. induction l as [|z l IH]; intros x; cbn.
  - split; [set_solver|]. intros y ->%list_elem_of_singleton. apply leb_refl.
  - destruct (IH (if String.ltb z x then z else x)) as [Hin Hle].
    split.
    + destruct (String.ltb z x); set_solver.
    + intros y Hy. destruct (String.ltb z x) eqn:Hzx.
      * apply elem_of_cons in Hy as [->|Hy]; [|by apply Hle].
        apply (leb_trans _ z); [apply Hle; set_solver|].
        apply leb_cases. by right.
      * apply elem_of_cons in Hy as [->|Hy]; [apply Hle; set_solver|].
        apply elem_of_cons in Hy as [->|Hy]; [|apply Hle; set_solver].
        apply (leb_trans _ x); [apply Hle; set_solver|].
        by rewrite leb_ltb, Hzx.
Qed.

Lemma py_min_spec (l : list string) (m : string) :
  py_min l = Some m ↔ m ∈ l ∧ ∀ y, y ∈ l → String.leb m y = true.
Proof.
  destruct l as [|x l]; cbn.
  - split; [done|]. by intros [?%elem_of_nil _].
  - pose proof (fold_min_spec l x) as [Hin Hle]. cbn in Hin, Hle.
    split.
    + by intros [= <-].
    + intros [Hm Hm']. f_equal. apply String.leb_antisym; auto.
Qed.

(** ** Cycle normalization *)

Lemma record_once_NoDup (c : list string) (cycles : list (list string)) :
  NoDup cycles → NoDup (record_once c cycles).
Proof.
  intros Hnd. unfold record_once. case_decide; [done|].
  apply NoDup_app. split; [done|]. split; [|apply NoDup_singleton].
  intros x Hx ->%list_elem_of_singleton. done.
Qed.

(** The path ends with the members of the cycle, from the re-entered node
    on; [m] is their least element and [a] what precedes it. *)
Lemma found_cycle_split (node m : string) (pre a b : list string)
    (cycles : list (list string)) :
  head (a ++ m :: b) = Some node → node ∉ pre → m ∉ a →
  (∀ y, y ∈ a ++ m :: b → String.leb m y = true) →
  found_cycle node (pre ++ a ++ m :: b) cycles
  = Ok (record_once (m :: b ++ a ++ [m]) cycles).
Proof.
  intros Hhead Hpre Hm Hmin. unfold found_cycle.
  assert (∃ rest, a ++ m :: b = node :: rest) as [rest Hl].
  { destruct (a ++ m :: b); [done|]. injection Hhead as ->. eauto. }
  rewrite Hl, (index_of_app_fresh node pre rest) by done.
  cbn [or_raise mbind res_bind].
  rewrite drop_app_length, <- Hl, all_but_last_snoc.
  assert (py_min (a ++ m :: b) = Some m) as ->.
  { apply py_min_spec. split; [set_solver|done]. }
  cbn [or_raise mbind res_bind].
  rewrite <- (assoc_L app a). cbn [app].
  rewrite (index_of_app_fresh m a (b ++ [node])) by done.
  cbn [or_raise mbind res_bind].
  rewrite list_lookup_middle by done. cbn [or_raise mbind res_bind].
  rewrite drop_app_length, take_app_length. done.
Qed.

Lemma found_cycle_total (node : string) (path : list string)
    (cycles : list (list string)) :
  node ∈ path →
  ∃ c, found_cycle node path cycles = Ok (record_once c cycles).
Proof.
  intros (pre & l & -> & Hpre & _)%index_of_elem.
  destruct (py_min (node :: l)) as [m|] eqn:Hmin; [|done].
  apply py_min_spec in Hmin as [Hin Hle].
  apply index_of_elem in Hin as (a & b & Hl & Ha & _).
  exists (m :: b ++ a ++ [m]). rewrite Hl.
  apply found_cycle_split; try done; by rewrite <- Hl.
Qed.




(** ** Termination of the depth-first search *)

Lemma dict_get_key {K V : Type} `{EqDecision K} (k : K) (d : list (K * V))
    (v : V) :
  dict_get k d = Some v → (k, v) ∈ d.
Proof.
  induction d as [|[k' v'] d IH]; cbn; [done|].
  case_decide as Hk; [intros [= ->]; subst; left|right; auto].
Qed.

Lemma dict_has_key (k : string) (modules : list (string * ModuleInfo)) :
  dict_has k modules = true → k ∈ keys_set modules.
Proof.
  unfold dict_has, keys_set, dict_keys.
  destruct (dict_get k modules) as [v|] eqn:Hget; [|done]. intros _.
  apply elem_of_list_to_set, list_elem_of_fmap.
  exists (k, v). split; [done|]. by apply dict_get_key.
Qed.

Lemma size_keys_set (modules : list (string * ModuleInfo)) :
  (size (keys_set modules) ≤ length modules)%nat.
Proof.
  unfold keys_set, dict_keys.
  induction modules as [|[k v] d IH]; cbn.
  - by rewrite size_empty.
  - rewrite size_union_alt, size_singleton.
    assert (size (list_to_set d.*1 ∖ {[k]} : gset string)
            ≤ size (list_to_set d.*1 : gset string))%nat.
    { apply subseteq_size. set_solver. }
    lia.
Qed.

Lemma unvisited_shrinks (K V : gset string) (node : string) :
  node ∈ K → node ∉ V → (size (K ∖ ({[node]} ∪ V)) < size (K ∖ V))%nat.
Proof. intros. apply subset_size. set_solver. Qed.

Lemma unvisited_mono (K V V' : gset string) :
  V ⊆ V' → (size (K ∖ V') ≤ size (K ∖ V))%nat.
Proof. intros. apply subseteq_size. set_solver. Qed.

(** With more fuel than unvisited modules, [dfs] returns; it leaves the
    recursion stack as it found it and never records a cycle twice. *)
Lemma dfs_total (modules : list (string * ModuleInfo)) (fuel : nat) :
  ∀ node path st,
    node ∈ keys_set modules →
    (size (keys_set modules ∖ visited st) < fuel)%nat →
    (∀ x, x ∈ rec_stack st → x ∈ path) →
    NoDup (cycles st) →
    ∃ st', dfs modules fuel node path st = Ok st'
           ∧ visited st ⊆ visited st'
           ∧ rec_stack st' = rec_stack st
           ∧ NoDup (cycles st').
Proof.
  induction fuel as [|fuel IH]; intros node path st Hnode Hfuel Hstack Hnd;
    [lia|].
  cbn [dfs]. destruct (decide (node ∈ rec_stack st)) as [Hrec|Hrec].
  { destruct (found_cycle_total node path (cycles st)) as [c ->]; [auto|].
    eexists. split; [reflexivity|]. cbn.
    split; [done|]. split; [done|]. by apply record_once_NoDup. }
  destruct (decide (node ∈ visited st)) as [Hvis|Hvis].
  { exists st. done. }
  set (st1 := {| cycles := cycles st; visited := {[node]} ∪ visited st;
                 rec_stack := {[node]} ∪ rec_stack st |}).
  assert (∀ l s,
    visited st1 ⊆ visited s → rec_stack s = rec_stack st1 →
    NoDup (cycles s) →
    ∃ s', foldM (λ s imported,
                   if dict_has imported modules
                   then dfs modules fuel imported (path ++ [node]) s
                   else Ok s) l s = Ok s'
          ∧ visited st1 ⊆ visited s' ∧ rec_stack s' = rec_stack st1
          ∧ NoDup (cycles s')) as Hloop.
  { induction l as [|imported l IHl]; intros s Hsub Hrs Hnds; cbn.
    { exists s. done. }
    destruct (dict_has imported modules) eqn:Hhas.
    - destruct (IH imported (path ++ [node]) s) as (s1 & -> & Hv & Hr & Hn).
      + by apply dict_has_key.
      + pose proof (unvisited_shrinks (keys_set modules) (visited st) node
                      Hnode Hvis).
        pose proof (unvisited_mono (keys_set modules) _ _ Hsub).
        cbn in *. lia.
      + intros x. rewrite Hrs. cbn. set_solver.
      + done.
      + cbn. apply IHl; [set_solver|congruence|done].
    - cbn. by apply IHl. }
  assert (∃ st2,
    match dict_get node modules with
    | Some module =>
        foldM (λ s imported,
                 if dict_has imported modules
                 then dfs modules fuel imported (path ++ [node]) s
                 else Ok s) (imports module) st1
    | None => Ok st1
    end = Ok st2
    ∧ visited st1 ⊆ visited st2 ∧ rec_stack st2 = rec_stack st1
    ∧ NoDup (cycles st2)) as (st2 & -> & Hv2 & Hr2 & Hn2).
  { destruct (dict_get node modules); [by apply Hloop|]. exists st1. done. }
  cbn. rewrite decide_True by (rewrite Hr2; cbn; set_solver).
  eexists. split; [reflexivity|]. cbn. split; [set_solver|].
  split; [|done]. rewrite Hr2. cbn. set_solver.
Qed.

Lemma find_circular_dependencies_total (modules : list (string * ModuleInfo)) :
  ∃ cs, find_circular_dependencies modules = Ok cs ∧ NoDup cs.
Proof.
  unfold find_circular_dependencies.
  assert (∀ l s,
    (∀ k, k ∈ l → k ∈ keys_set modules) →
    rec_stack s = ∅ → NoDup (cycles s) →
    ∃ s', foldM (λ s module_path,
                   if decide (module_path ∈ visited s) then Ok s
                   else dfs modules (S (length modules)) module_path [] s)
            l s = Ok s' ∧ NoDup (cycles s')) as Hloop.
  { induction l as [|k l IHl]; intros s Hkeys Hrs Hnd; cbn [foldM].
    { exists s. done. }
    case_decide.
    - cbn. apply IHl; [set_solver|done..].
    - destruct (dfs_total modules (S (length modules)) k [] s)
        as (s1 & -> & _ & Hr & Hn); [set_solver| | |done|].
      + pose proof (size_keys_set modules).
        pose proof (unvisited_mono (keys_set modules) ∅ (visited s)).
        assert (size (keys_set modules ∖ ∅) ≤ size (keys_set modules))%nat.
        { apply subseteq_size. set_solver. }
        assert (∅ ⊆ visited s) by set_solver. intuition lia.
      + rewrite Hrs. set_solver.
      + cbn. apply IHl; [set_solver|congruence|done]. }
  destruct (Hloop (dict_keys modules)
              {| cycles := []; visited := ∅; rec_stack := ∅ |})
    as (s' & -> & Hn); [|done|apply NoDup_nil_2|].
  - intros k Hk. unfold keys_set. set_solver.
  - exists (cycles s'). done.
Qed.





(** ** Two modules importing each other *)

Lemma dict_has_pair {V : Type} (a b : string) (x y : V) :
  dict_has a [(a, x); (b, y)] = true ∧ dict_has b [(a, x); (b, y)] = true.
Proof.
  unfold dict_has. cbn. rewrite decide_True by done.
  split; [done|]. destruct (decide (b = a)); [done|].
  by rewrite decide_True.
Qed.

(** C4, as stated, fails: the reported sequence closes the cycle, it has
    three entries and is not the two-element list. *)
Lemma two_cycle_is_closed :
  find_circular_dependencies
    [("A", {| path := "A"; imports := ["B"]; imported_by := ["B"] |});
     ("B", {| path := "B"; imports := ["A"]; imported_by := ["A"] |})]
  = Ok [["A"; "B"; "A"]]
  ∧ find_circular_dependencies
      [("A", {| path := "A"; imports := ["B"]; imported_by := ["B"] |});
       ("B", {| path := "B"; imports := ["A"]; imported_by := ["A"] |})]
    ≠ Ok [["A"; "B"]].
Proof. split; by vm_compute. Qed.

(** C4, amended.  For two modules [a < b] that import each other and
    nothing else, whichever is visited first, exactly one cycle is
    reported, the closed sequence [[a; b; a]]: the members [a], [b] from the
    smaller one on, then the start again.  Both have instability 1/2. *)
Theorem two_module_cycle (a b : string) :
  String.ltb a b = true →
  let ma := {| path := a; imports := [b]; imported_by := [b] |} in
  let mb := {| path := b; imports := [a]; imported_by := [a] |} in
  find_circular_dependencies [(a, ma); (b, mb)] = Ok [[a; b; a]]
  ∧ find_circular_dependencies [(b, mb); (a, ma)] = Ok [[a; b; a]]
  ∧ (instability ma == 1 # 2)%Q
  ∧ (instability mb == 1 # 2)%Q.
Proof.
  intros Hlt ma mb. pose proof (ltb_ne a b Hlt) as Hne.
  assert (found_cycle a [a; b] [] = Ok [[a; b; a]]) as Hab.
  { apply (found_cycle_split a a [] [] [b] []); [done|set_solver|set_solver|].
    intros y [->|Hy]%elem_of_cons; [apply leb_refl|].
    apply list_elem_of_singleton in Hy as ->. apply leb_cases; by right. }
  assert (found_cycle b [b; a] [] = Ok [[a; b; a]]) as Hba.
  { apply (found_cycle_split b a [] [b] [] []); [done|set_solver|set_solver|].
    intros y [->|Hy]%elem_of_cons; [apply leb_cases; by right|].
    apply list_elem_of_singleton in Hy as ->. apply leb_refl. }
  destruct (dict_has_pair a b ma mb) as [Hh1 Hh2].
  destruct (dict_has_pair b a mb ma) as [Hh3 Hh4].
  unfold find_circular_dependencies, ma, mb in *.
  split; [|split; [|split; reflexivity]].
  all: cbn -[found_cycle dict_has].
  all: repeat first
    [ rewrite decide_True by set_solver
    | rewrite decide_False by set_solver
    | rewrite Hab | rewrite Hba
    | rewrite Hh1 | rewrite Hh2 | rewrite Hh3 | rewrite Hh4
    | progress cbn -[found_cycle dict_has] ].
  all: done.
Qed.

Lemma two_module_cycle_witness :
  let ma := {| path := "src/api.ts"; imports := ["src/model.ts"];
               imported_by := ["src/model.ts"] |} in
  let mb := {| path := "src/model.ts"; imports := ["src/api.ts"];
               imported_by := ["src/api.ts"] |} in
  find_circular_dependencies [("src/api.ts", ma); ("src/model.ts", mb)]
  = Ok [["src/api.ts"; "src/model.ts"; "src/api.ts"]]
  ∧ find_circular_dependencies [("src/model.ts", mb); ("src/api.ts", ma)]
    = Ok [["src/api.ts"; "src/model.ts"; "src/api.ts"]]
  ∧ (instability ma == 1 # 2)%Q
  ∧ (instability mb == 1 # 2)%Q.
Proof. apply (two_module_cycle "src/api.ts" "src/model.ts"). reflexivity. Defined.

(** ** Dictionaries *)

Section dict_facts.
Context {K V : Type} `{EqDecision K}.
Implicit Types (d : list (K * V)).

Lemma dict_get_set (k k' : K) (v : V) d :
  dict_get k' (dict_set k v d)
  = if decide (k' = k) then Some v else dict_get k' d.
Proof.
  induction d as [|[k0 v0] d IH]; cbn.
  - by destruct (decide (k' = k)).
  - destruct (decide (k = k0)) as [->|Hne]; cbn.
    + by destruct (decide (k' = k0)).
    + rewrite IH. destruct (decide (k' = k0)) as [->|]; [|done].
      by rewrite decide_False.
Qed.

Lemma dict_set_keys (k : K) (v : V) d :
  (dict_set k v d).*1 = if decide (k ∈ d.*1) then d.*1 else d.*1 ++ [k].
Proof.
  induction d as [|[k0 v0] d IH]; cbn; [by rewrite decide_False by set_solver|].
  destruct (decide (k = k0)) as [->|Hne]; cbn.
  - by rewrite decide_True by set_solver.
  - rewrite IH. destruct (decide (k ∈ d.*1)).
    + by rewrite decide_True by set_solver.
    + by rewrite decide_False by set_solver.
Qed.

Lemma dict_set_NoDup (k : K) (v : V) d :
  NoDup d.*1 → NoDup (dict_set k v d).*1.
Proof.
  intros Hnd. rewrite dict_set_keys. case_decide; [done|].
  apply NoDup_app. split; [done|]. split; [|apply NoDup_singleton].
  intros x Hx ->%list_elem_of_singleton. done.
Qed.

Lemma dict_get_elem (k : K) (v : V) d :
  NoDup d.*1 → (k, v) ∈ d → dict_get k d = Some v.
Proof.
  induction d as [|[k0 v0] d IH]; cbn; [by intros _ ?%elem_of_nil|].
  intros [Hk0 Hnd]%NoDup_cons [[= -> ->]|Hin]%elem_of_cons.
  - by rewrite decide_True.
  - rewrite decide_False; [by apply IH|].
    intros ->. apply Hk0, list_elem_of_fmap. by exists (k0, v).
Qed.

End dict_facts.

Lemma foldM_invariant {A S : Type} (I : S → Prop) (f : S → A → res S)
    (l : list A) (s s' : S) :
  (∀ s x s', x ∈ l → I s → f s x = Ok s' → I s') →
  I s → foldM f l s = Ok s' → I s'.
Proof.
  revert s. induction l as [|x l IH]; intros s Hstep Hs; cbn.
  - by intros [= <-].
  - destruct (f s x) as [s1| |] eqn:Hf; cbn; try done.
    apply IH; [|eapply Hstep; [|done..]]; [|set_solver].
    intros ????. apply Hstep. set_solver.
Qed.

Lemma fold_left_invariant {A S : Type} (I : S → Prop) (f : S → A → S)
    (l : list A) (s : S) :
  (∀ s x, x ∈ l → I s → I (f s x)) → I s → I (fold_left f l s).
Proof.
  revert s. induction l as [|x l IH]; intros s Hstep Hs; cbn; [done|].
  apply IH; [|apply Hstep; [set_solver|done]].
  intros ???. apply Hstep. set_solver.
Qed.

(** ** The dependency graph *)

Lemma relative_to_app (root p rel : list string) :
  relative_to root p = Some rel → p = root ++ rel.
Proof.
  revert p. induction root as [|r root IH]; intros [|c p]; cbn; try done.
  - by intros [= <-].
  - by intros [= <-].
  - case_decide; [|done]. subst. intros ?%IH. by subst.
Qed.



Lemma link_imports_linked (modules0 mods : list (string * ModuleInfo))
    (k : string) (mk : ModuleInfo) :
  dict_get k modules0 = Some mk → linked modules0 mods →
  linked modules0 (link_imports k (imports mk) mods).
Proof.
  intros Hk Hmods. unfold link_imports.
  apply (fold_left_invariant (linked modules0)); [|done].
  intros s imported Himp [Hfw Hbw].
  destruct (dict_get imported s) as [target|] eqn:Htarget; [|done].
  split.
  - intros p. rewrite dict_get_set. case_decide as Hp; [|done].
    subst p. by rewrite <- Hfw, Htarget.
  - intros p m q. rewrite dict_get_set. case_decide as Hp; [|by apply Hbw].
    subst p. intros [= <-]. cbn. unfold set_add. case_decide; [by apply Hbw|].
    intros [Hq| ->%list_elem_of_singleton]%elem_of_app; [by eapply Hbw|].
    by exists mk.
Qed.

Lemma second_pass_linked (modules0 : list (string * ModuleInfo)) :
  NoDup modules0.*1 →
  (∀ p m, dict_get p modules0 = Some m → imported_by m = []) →
  linked modules0
    (fold_left (λ (mods : list (string * ModuleInfo))
                  (item : string * ModuleInfo),
                  link_imports item.1 (imports item.2) mods)
       modules0 modules0).
Proof.
  intros Hnd Hempty.
  apply (fold_left_invariant (linked modules0)).
  - intros s [k mk] Hin Hs. apply link_imports_linked; [|done].
    by apply dict_get_elem.
  - split; [done|]. intros p m q Hp. by rewrite (Hempty p m Hp), elem_of_nil.
Qed.




(** ** Failure of the history query *)

(** Only [CalledProcessError] is handled where the log is retrieved: a
    time-out or a missing tool leaves [analyze_git_log] as an exception and
    ends the run with status 1. *)
Lemma unhandled_log_failure {D : Type} (w : world D) (e : exn) :
  dot_git_exists w = true → e ≠ CalledProcessError →
  git w numstat_args = Raise e →
  main w = Ok (1%Z, None).
Proof.
  intros Hgit He Hlog. unfold main, generate_snapshot, analyze_repository.
  rewrite Hgit. cbn [negb]. unfold analyze_git_log, run_git_command.
  rewrite Hlog. by destruct e.
Qed.

(** C2.  In a repository (the [.git] entry exists) whose log query times
    out, the run does not degrade to empty history slices: it ends with exit
    status 1 and without a snapshot; a missing tool does the same.  When
    the query fails with [CalledProcessError], the run completes with
    status 0, the history slices are empty and the dependency output is
    populated, which is what the claim asks for in all three cases. *)
Theorem log_timeout_aborts_run :
  main (scenario_world (Raise TimeoutExpired)) = Ok (1%Z, None)
  ∧ main (scenario_world (Raise FileNotFoundError)) = Ok (1%Z, None)
  ∧ ∃ s, main (scenario_world (Raise CalledProcessError)) = Ok (0%Z, Some s)
         ∧ hotspots (git_analysis s) = []
         ∧ temporal_coupling (git_analysis s) = []
         ∧ knowledge_silos (bus_factor (git_analysis s)) = []
         ∧ snap_priority_hotspots s = []
         ∧ md_path <$> top_modules_by_instability (dependencies s)
           = ["src/a.ts"; "src/b.ts"]
         ∧ total_modules (dep_summary (dependencies s)) = 2%nat
         ∧ circular_dependencies (dependencies s)
           = [["src/a.ts"; "src/b.ts"; "src/a.ts"]].
Proof.
  split; [by vm_compute|]. split; [by vm_compute|].
  eexists. split; [by vm_compute|]. by vm_compute.
Qed.

(** ** Change counts *)

(** A header line whose author name holds a vertical bar has three bars; it
    is then neither taken as a header nor as an entry, and while no earlier
    header was accepted the entries under it are dropped. *)
Lemma header_with_extra_bar (parse : string → option Z)
    (tracked_files : list string) (stats : list (string * FileStats))
    (line : string) :
  count_char "|" (strip line) ≠ 2%nat →
  git_log_line parse tracked_files (stats, None) line = (stats, None).
Proof.
  intros Hbars. unfold git_log_line.
  case_decide; [done|]. by rewrite decide_False.
Qed.

(** C8.  Two commits of the stream touch the tracked file [src/app.ts], so
    its change count should be 2.  The author of the newer commit is
    [Dana | Ops]; its header is not recognised, its entry is dropped, and
    the reported change count is 1.  With the author [Dana Ops] the count
    is 2. *)
Theorem bar_in_author_loses_commit :
  spec_change_count ["src/app.ts"] (pipe_commits "Dana | Ops") "src/app.ts"
  = 2%nat
  ∧ change_counts (analyze_git_log scenario_dates (pipe_git "Dana | Ops"))
    = Ok [("src/app.ts", 1%nat)]
  ∧ change_counts (analyze_git_log scenario_dates (pipe_git "Dana Ops"))
    = Ok [("src/app.ts", 2%nat)].
Proof. split; [by vm_compute|]. split; by vm_compute. Qed.

(** ** Counting *)

Section counting.
Context {A : Type} `{EqDecision A}.
Implicit Types (x y : A) (l : list A).

Lemma occ_nil x : occ x [] = 0%nat.
Proof. done. Qed.

Lemma occ_cons x y l :
  occ x (y :: l) = ((if decide (y = x) then 1 else 0) + occ x l)%nat.
Proof. unfold occ. rewrite filter_cons. destruct (decide (y = x)); cbn; lia. Qed.

Lemma occ_app x l1 l2 : occ x (l1 ++ l2) = (occ x l1 + occ x l2)%nat.
Proof. unfold occ. by rewrite filter_app, length_app. Qed.

Lemma occ_perm x l1 l2 : l1 ≡ₚ l2 → occ x l1 = occ x l2.
Proof. unfold occ. by intros ->. Qed.

Lemma occ_not_elem x l : x ∉ l → occ x l = 0%nat.
Proof.
  induction l as [|y l IH]; [done|]. intros Hx. rewrite occ_cons.
  rewrite decide_False by set_solver. rewrite IH by set_solver. done.
Qed.

Lemma occ_NoDup x l : NoDup l → (occ x l ≤ 1)%nat.
Proof.
  induction 1 as [|y l Hy Hl IH]; [rewrite occ_nil; lia|]. rewrite occ_cons.
  case_decide; [subst; rewrite occ_not_elem by done|]; lia.
Qed.

Lemma occ_set_add x y l :
  (occ x (set_add y l) ≤ (if decide (y = x) then 1 else 0) + occ x l)%nat.
Proof.
  unfold set_add. case_decide; [lia|].
  rewrite occ_app, occ_cons, occ_nil. lia.
Qed.

Lemma set_add_NoDup x l : NoDup l → NoDup (set_add x l).
Proof.
  intros Hl. unfold set_add. case_decide; [done|].
  apply NoDup_app. split; [done|]. split; [|apply NoDup_singleton].
  intros y Hy ->%list_elem_of_singleton. done.
Qed.

End counting.

Lemma fold_left_bind {A B S : Type} (g : S → B → S) (h : A → list B)
    (l : list A) (s : S) :
  fold_left (λ acc x, fold_left g (h x) acc) l s = fold_left g (l ≫= h) s.
Proof.
  revert s. induction l as [|x l IH]; intros s; cbn; [done|].
  by rewrite fold_left_app, IH.
Qed.

(** Counting with a [defaultdict(int)]. *)
Section tally.
Context {K : Type} `{EqDecision K}.
Implicit Types (d : list (K * nat)).

Lemma tally_get (k : K) (l : list K) d :
  default 0%nat (dict_get k (tally l d))
  = (default 0%nat (dict_get k d) + occ k l)%nat.
Proof.
  unfold tally. revert d. induction l as [|x l IH]; intros d; cbn [fold_left].
  - rewrite occ_nil. lia.
  - rewrite IH, occ_cons. unfold dict_upd. rewrite dict_get_set.
    destruct (decide (k = x)) as [->|Hne].
    + rewrite decide_True by done. cbn. lia.
    + rewrite decide_False by done. lia.
Qed.

Lemma tally_positive (l : list K) d :
  (∀ k v, dict_get k d = Some v → 1 ≤ v)%nat →
  (∀ k v, dict_get k (tally l d) = Some v → 1 ≤ v)%nat.
Proof.
  unfold tally.
  apply (fold_left_invariant
           (λ d, ∀ k v, dict_get k d = Some v → 1 ≤ v)%nat).
  intros s x _ Hs k v. unfold dict_upd. rewrite dict_get_set.
  case_decide; [intros [= <-]; lia|apply Hs].
Qed.

Lemma tally_NoDup (l : list K) d : NoDup d.*1 → NoDup (tally l d).*1.
Proof.
  unfold tally. apply (fold_left_invariant (λ d, NoDup d.*1)).
  intros s x _ Hs. by apply dict_set_NoDup.
Qed.

(** An item of a tally started empty holds the number of occurrences of
    its key, which is not zero. *)
Lemma tally_item (k : K) (v : nat) (l : list K) :
  (k, v) ∈ tally l [] → v = occ k l ∧ (1 ≤ v)%nat.
Proof.
  intros Hin.
  assert (dict_get k (tally l []) = Some v) as Hget.
  { apply dict_get_elem; [|done]. apply tally_NoDup, NoDup_nil_2. }
  split.
  - pose proof (tally_get k l []) as Hk. rewrite Hget in Hk. cbn in Hk. lia.
  - by apply (tally_positive l [] (λ _ _ (H : None = Some _), ltac:(done)) k).
Qed.

End tally.

(** ** Temporal coupling *)

Lemma occ_pairs_after (f1 f2 : string) (l : list string) :
  NoDup l →
  (occ (f1, f2) (pairs_after l) ≤ occ f1 l
   ∧ occ (f1, f2) (pairs_after l) ≤ occ f2 l)%nat.
Proof.
  induction 1 as [|x l Hx Hl IH]; cbn [pairs_after]; [by rewrite !occ_nil|].
  rewrite occ_app, !occ_cons.
  assert (occ (f1, f2) ((λ file2, (x, file2)) <$> l)
          = if decide (x = f1) then occ f2 l else 0%nat) as ->.
  { clear. induction l as [|y l IH]; cbn [fmap list_fmap].
    - rewrite !occ_nil. by case_decide.
    - rewrite !occ_cons, IH. repeat case_decide; simplify_eq; lia. }
  pose proof (occ_NoDup f2 l Hl).
  destruct (decide (x = f1)) as [->|Hne].
  - rewrite (occ_not_elem f1 l) in * by done. case_decide; lia.
  - case_decide; lia.
Qed.

Lemma sorted_strings_perm (l : list string) : sorted_strings l ≡ₚ l.
Proof. apply stable_sort_perm. Qed.

Lemma occ_commit_pairs (f1 f2 : string) (files : list string) :
  NoDup files →
  (occ (f1, f2) (pairs_after (sorted_strings files)) ≤ occ f1 files
   ∧ occ (f1, f2) (pairs_after (sorted_strings files)) ≤ occ f2 files)%nat.
Proof.
  intros Hnd.
  rewrite <- (occ_perm f1 _ _ (sorted_strings_perm files)).
  rewrite <- (occ_perm f2 _ _ (sorted_strings_perm files)).
  apply occ_pairs_after. by rewrite sorted_strings_perm.
Qed.

Lemma count_couplings_tally (commit_files : list (string * list string)) :
  count_couplings commit_files
  = tally (dict_values commit_files
             ≫= λ files, pairs_after (sorted_strings files)) [].
Proof. unfold count_couplings, tally. by rewrite <- fold_left_bind. Qed.

Lemma occ_all_pairs (f1 f2 : string) (sets : list (list string)) :
  Forall NoDup sets →
  (occ (f1, f2) (sets ≫= λ files, pairs_after (sorted_strings files))
   ≤ Nat.min (commits_with f1 sets) (commits_with f2 sets))%nat.
Proof.
  unfold commits_with.
  induction 1 as [|files sets Hfiles Hsets IH]; [cbn; lia|].
  rewrite bind_cons, occ_app, !fmap_cons.
  change (sum_list (?x :: ?l)) with (x + sum_list l)%nat.
  pose proof (occ_commit_pairs f1 f2 files Hfiles). lia.
Qed.

Section dict_values_facts.
Context {K V : Type} `{EqDecision K}.
Implicit Types (d : list (K * V)).

Lemma dict_set_values_sum (g : V → nat) (k : K) (v : V) d :
  (sum_list (g <$> (dict_set k v d).*2) + from_option g 0 (dict_get k d)
   = sum_list (g <$> d.*2) + g v)%nat.
Proof.
  induction d as [|[k0 v0] d IH]; cbn; [lia|].
  destruct (decide (k = k0)); cbn; lia.
Qed.

Lemma dict_set_values_Forall (P : V → Prop) (k : K) (v : V) d :
  Forall P d.*2 → P v → Forall P (dict_set k v d).*2.
Proof.
  intros Hd Hv. induction d as [|[k0 v0] d IH]; cbn.
  - by constructor.
  - apply Forall_cons in Hd as [Hv0 Hd].
    destruct (decide (k = k0)); cbn; constructor; auto.
Qed.

Lemma dict_get_values_Forall (P : V → Prop) (k : K) (v : V) d :
  Forall P d.*2 → dict_get k d = Some v → P v.
Proof.
  intros Hd Hget%dict_get_key. rewrite Forall_forall in Hd. apply Hd.
  apply list_elem_of_fmap. by exists (k, v).
Qed.

End dict_values_facts.

Lemma name_only_line_ok (tracked_files : list string) (st : coupling_scan)
    (raw : string) :
  scan_ok st → scan_ok (name_only_line tracked_files st raw).
Proof.
  intros [Hnd Hle]. unfold name_only_line.
  case_decide; [done|]. destruct (is_commit_hash (strip raw)); [done|].
  destruct (current_commit st) as [commit|] eqn:Hcommit; [|done].
  destruct (_ && _); [|done].
  set (line := strip raw).
  set (old := default [] (dict_get commit (commit_files st))).
  assert (NoDup old) as Hold.
  { unfold old. destruct (dict_get commit (commit_files st)) eqn:Hget; cbn.
    - by eapply (dict_get_values_Forall NoDup).
    - apply NoDup_nil_2. }
  split; cbn.
  - unfold dict_values, dict_upd.
    apply dict_set_values_Forall; [done|]. by apply set_add_NoDup.
  - intros f. unfold changes_of, commits_with, dict_values, dict_upd. cbn.
    pose proof (dict_set_values_sum (occ f) commit (set_add line old)
                  (commit_files st)) as Hsum.
    assert (from_option (occ f) 0%nat (dict_get commit (commit_files st))
            = occ f old) as Hfrom.
    { unfold old. by destruct (dict_get commit (commit_files st)). }
    pose proof (occ_set_add f line old) as Hadd.
    specialize (Hle f). unfold changes_of, commits_with, dict_values in Hle.
    rewrite dict_get_set.
    destruct (decide (f = line)) as [->|Hne].
    + rewrite decide_True in Hadd by done. cbn. fold old. lia.
    + rewrite decide_False in Hadd by done. fold old. lia.
Qed.

Lemma scan_name_only_ok (tracked_files : list string) (log_output : string) :
  scan_ok (scan_name_only tracked_files log_output).
Proof.
  unfold scan_name_only. apply (fold_left_invariant scan_ok).
  - intros st raw _. apply name_only_line_ok.
  - split; [constructor|]. intros f. cbn. lia.
Qed.

Lemma select_couplings_elem (min_coupling : nat) (min_ratio : Q)
    (counts : list (string * nat)) (coupling_count : list (string * string * nat))
    (c : TemporalCoupling) :
  c ∈ select_couplings min_coupling min_ratio counts coupling_count →
  (file1 c, file2 c, coupled_commits c) ∈ coupling_count
  ∧ (min_coupling ≤ coupled_commits c)%nat
  ∧ coupling_ratio c
    = ratio_of (coupled_commits c)
        (default 0%nat (dict_get (file1 c) counts))
        (default 0%nat (dict_get (file2 c) counts))
  ∧ (min_ratio <= coupling_ratio c)%Q.
Proof.
  unfold select_couplings.
  intros ([[f1 f2] count] & Hin & Hsel)%list_elem_of_omap.
  destruct (Nat.ltb_spec count min_coupling) as [|Hmin]; [done|].
  destruct (Qle_bool min_ratio _) eqn:Hratio; [|done].
  injection Hsel as <-. cbn. by apply Qle_bool_iff in Hratio.
Qed.

Lemma ratio_of_bounds (count n1 n2 : nat) :
  (1 ≤ count)%nat → (count ≤ Nat.min n1 n2)%nat →
  (0 < ratio_of count n1 n2)%Q ∧ (ratio_of count n1 n2 <= 1)%Q.
Proof.
  intros Hpos Hle. unfold ratio_of.
  destruct (Nat.ltb_spec 0 (Nat.min n1 n2)) as [Hmin|]; [|lia].
  assert (0 < inject_Z (Z.of_nat (Nat.min n1 n2)))%Q as Hden.
  { rewrite <- (Zlt_Qlt 0). lia. }
  split.
  - apply Qlt_shift_div_l; [done|]. rewrite Qmult_0_l.
    rewrite <- (Zlt_Qlt 0). lia.
  - apply Qle_shift_div_r; [done|]. rewrite Qmult_1_l.
    rewrite <- Zle_Qle. lia.
Qed.


(** What holds for every coupling computed from a scan. *)
Lemma couplings_of_scan_sound (min_coupling : nat) (min_ratio : Q)
    (scan : coupling_scan) (c : TemporalCoupling) :
  scan_ok scan →
  c ∈ couplings_of_scan min_coupling min_ratio scan →
  (1 ≤ coupled_commits c)%nat
  ∧ (min_coupling ≤ coupled_commits c)%nat
  ∧ (coupled_commits c
     ≤ Nat.min (changes_of scan (file1 c)) (changes_of scan (file2 c)))%nat
  ∧ coupling_ratio c
    = ratio_of (coupled_commits c) (changes_of scan (file1 c))
        (changes_of scan (file2 c))
  ∧ (min_ratio <= coupling_ratio c)%Q.
Proof.
  intros [Hnd Hle] Hc. unfold couplings_of_scan in Hc.
  apply subseteq_take in Hc. rewrite stable_sort_perm in Hc.
  apply select_couplings_elem in Hc as (Hitem & Hmin & Hratio & Hmr).
  rewrite count_couplings_tally in Hitem.
  apply tally_item in Hitem as [Hocc Hpos].
  pose proof (occ_all_pairs (file1 c) (file2 c) _ Hnd) as Hpairs.
  pose proof (Hle (file1 c)). pose proof (Hle (file2 c)).
  repeat split; try done. lia.
Qed.

(** C10.  Every coupling computed from a scanned log has a co-change count
    that is at most the change count of either file and at least the
    configured minimum, and a ratio above 0 and at most 1; at most 50 are
    returned.  The same holds for whatever [analyze_temporal_coupling]
    returns. *)
Theorem emitted_couplings_bounded (tracked_files : list string)
    (log_output : string) (min_coupling : nat) (min_ratio : Q) :
  let scan := scan_name_only tracked_files log_output in
  let emitted := couplings_of_scan min_coupling min_ratio scan in
  (length emitted ≤ 50)%nat
  ∧ Forall (λ c,
      (coupled_commits c
       ≤ Nat.min (changes_of scan (file1 c)) (changes_of scan (file2 c)))%nat
      ∧ coupling_ratio c
        = ratio_of (coupled_commits c) (changes_of scan (file1 c))
            (changes_of scan (file2 c))
      ∧ (0 < coupling_ratio c)%Q ∧ (coupling_ratio c <= 1)%Q
      ∧ (min_coupling ≤ coupled_commits c)%nat) emitted
  ∧ ∀ git : git_tool,
      match analyze_temporal_coupling git min_coupling min_ratio with
      | Ok couplings =>
          (length couplings ≤ 50)%nat
          ∧ Forall (λ c, (0 < coupling_ratio c)%Q ∧ (coupling_ratio c <= 1)%Q
                         ∧ (min_coupling ≤ coupled_commits c)%nat) couplings
      | _ => True
      end.
Proof.
  assert (∀ tracked log,
    let scan := scan_name_only tracked log in
    let emitted := couplings_of_scan min_coupling min_ratio scan in
    (length emitted ≤ 50)%nat
    ∧ Forall (λ c,
        (coupled_commits c
         ≤ Nat.min (changes_of scan (file1 c)) (changes_of scan (file2 c)))%nat
        ∧ coupling_ratio c
          = ratio_of (coupled_commits c) (changes_of scan (file1 c))
              (changes_of scan (file2 c))
        ∧ (0 < coupling_ratio c)%Q ∧ (coupling_ratio c <= 1)%Q
        ∧ (min_coupling ≤ coupled_commits c)%nat) emitted) as Hscan.
  { intros tracked log scan emitted. split.
    - unfold emitted, couplings_of_scan. rewrite length_take. lia.
    - apply Forall_forall. intros c Hc.
      destruct (couplings_of_scan_sound min_coupling min_ratio scan c)
        as (Hpos & Hmin & Hle & Hratio & _);
        [apply scan_name_only_ok|done|].
      destruct (ratio_of_bounds _ _ _ Hpos Hle).
      rewrite Hratio. done. }
  cbv zeta. destruct (Hscan tracked_files log_output) as [Hlen Hall].
  split; [done|]. split; [done|].
  intros git. unfold analyze_temporal_coupling, run_git_command.
  destruct (git name_only_args) as [log|[]|]; try done;
    try (split; [cbn; lia|constructor]).
  cbn [mbind res_bind].
  destruct (get_tracked_files git) as [tracked| |]; try done.
  cbn [mbind res_bind]. destruct (Hscan tracked log) as [Hlen' Hall'].
  split; [done|]. eapply Forall_impl; [exact Hall'|]. cbn. tauto.
Qed.

Lemma leb_total_false (a b : string) :
  String.leb a b = false → String.leb b a = true.
Proof. intros Hab. destruct (String.leb_total a b); congruence. Qed.

Lemma sorted_strings_sorted (l : list string) :
  StronglySorted (λ a b, String.leb a b = true) (sorted_strings l).
Proof.
  apply stable_sort_sorted; [apply leb_total_false|apply leb_trans].
Qed.


Lemma pairs_after_ordered (l : list string) (a b : string) :
  StronglySorted (λ a b, String.leb a b = true) l → NoDup l →
  (a, b) ∈ pairs_after l → String.ltb a b = true.
Proof.
  induction 1 as [|x l Hl IH Hx]; cbn [pairs_after];
    [by intros _ ?%elem_of_nil|].
  intros [Hxl Hnd]%NoDup_cons [Hin|Hin]%elem_of_app; [|by apply IH].
  apply list_elem_of_fmap in Hin as (y & [= -> ->] & Hy).
  rewrite Forall_forall in Hx.
  destruct (proj1 (leb_cases x y) (Hx y Hy)) as [->|]; done.
Qed.

Lemma occ_elem {A : Type} `{EqDecision A} (x : A) (l : list A) :
  (1 ≤ occ x l)%nat → x ∈ l.
Proof.
  intros Hocc. destruct (decide (x ∈ l)) as [|Hx]; [done|].
  rewrite occ_not_elem in Hocc by done. lia.
Qed.

Lemma couplings_of_scan_ordered (min_coupling : nat) (min_ratio : Q)
    (scan : coupling_scan) (c : TemporalCoupling) :
  scan_ok scan →
  c ∈ couplings_of_scan min_coupling min_ratio scan →
  String.ltb (file1 c) (file2 c) = true.
Proof.
  intros [Hnd _] Hc. unfold couplings_of_scan in Hc.
  apply subseteq_take in Hc. rewrite stable_sort_perm in Hc.
  apply select_couplings_elem in Hc as (Hitem & _).
  rewrite count_couplings_tally in Hitem.
  apply tally_item in Hitem as [-> Hpos]. apply occ_elem in Hpos.
  apply list_elem_of_bind in Hpos as (files & Hpair & Hfiles).
  rewrite Forall_forall in Hnd.
  apply (pairs_after_ordered (sorted_strings files));
    [apply sorted_strings_sorted| |done].
  rewrite sorted_strings_perm. by apply Hnd.
Qed.

(** * Further properties *)

(** ** Reported cycles are cycles of the graph *)












(** ** The built graph *)

Lemma build_dependency_graph_passes (fs : file_system)
    (repo_root : list string) (gitignore : option (string → bool)) :
  build_dependency_graph fs repo_root gitignore
  = (modules ← foldM (first_pass fs repo_root)
                 (source_files_of fs repo_root gitignore) [];
     Ok (second_pass modules)).
Proof. reflexivity. Qed.

Lemma dict_get_in_keys {K V : Type} `{EqDecision K} (k : K) (v : V)
    (d : list (K * V)) :
  dict_get k d = Some v → k ∈ d.*1.
Proof.
  intros Hget%dict_get_key. apply list_elem_of_fmap. by exists (k, v).
Qed.

Lemma dict_get_None_keys {K V : Type} `{EqDecision K} (k : K)
    (d : list (K * V)) :
  dict_get k d = None ↔ k ∉ d.*1.
Proof.
  induction d as [|[k0 v0] d IH]; cbn; [split; [intros _ ?%elem_of_nil|]; done|].
  case_decide as Hk.
  - subst. split; [done|]. intros Hk0. destruct Hk0. by left.
  - rewrite IH. rewrite not_elem_of_cons. naive_solver.
Qed.

Lemma dict_set_present_keys {K V : Type} `{EqDecision K} (k : K) (v w : V)
    (d : list (K * V)) :
  dict_get k d = Some w → (dict_set k v d).*1 = d.*1.
Proof.
  intros Hget%dict_get_in_keys. rewrite dict_set_keys. by rewrite decide_True.
Qed.

Lemma more_importers_refl (mods : list (string * ModuleInfo)) :
  more_importers mods mods.
Proof. intros q. by destruct (dict_get q mods). Qed.

Lemma more_importers_trans (m1 m2 m3 : list (string * ModuleInfo)) :
  more_importers m1 m2 → more_importers m2 m3 → more_importers m1 m3.
Proof.
  intros H12 H23 q. specialize (H12 q). specialize (H23 q).
  destruct (dict_get q m1), (dict_get q m2), (dict_get q m3); try done.
  destruct H12 as (? & ? & ?), H23 as (? & ? & ?).
  split; [congruence|]. split; [congruence|]. auto.
Qed.

Lemma link_step_more (mods : list (string * ModuleInfo))
    (k imported : string) (target : ModuleInfo) :
  dict_get imported mods = Some target →
  more_importers mods
    (dict_set imported (add_imported_by k target) mods).
Proof.
  intros Hget q. rewrite dict_get_set. case_decide as Hq.
  - subst q. rewrite Hget. cbn. split; [done|]. split; [done|].
    intros x Hx. unfold set_add. case_decide; set_solver.
  - by destruct (dict_get q mods).
Qed.

(** One module's imports are linked: the graph only gains importers, and
    every imported module of the graph now lists [k]. *)
Lemma link_imports_more (k : string) (imps : list string)
    (mods : list (string * ModuleInfo)) :
  more_importers mods (link_imports k imps mods)
  ∧ ∀ q mq, q ∈ imps → dict_get q (link_imports k imps mods) = Some mq →
            k ∈ imported_by mq.
Proof.
  unfold link_imports. revert mods.
  induction imps as [|imported imps IH]; intros mods; cbn [fold_left].
  { split; [apply more_importers_refl|]. by intros q mq ?%elem_of_nil. }
  set (mods1 := match dict_get imported mods with
                | Some target =>
                    dict_set imported (add_imported_by k target) mods
                | None => mods
                end).
  assert (more_importers mods mods1) as Hstep.
  { unfold mods1. destruct (dict_get imported mods) eqn:Hget;
      [by apply link_step_more|apply more_importers_refl]. }
  destruct (IH mods1) as [Hmore Hlinked].
  split; [by eapply more_importers_trans|].
  intros q mq [->|Hq]%elem_of_cons Hget; [|by eapply Hlinked].
  specialize (Hmore imported). rewrite Hget in Hmore.
  destruct (dict_get imported mods1) as [m1|] eqn:Hget1; [|done].
  destruct Hmore as (_ & _ & Hsub). apply Hsub.
  unfold mods1 in Hget1. destruct (dict_get imported mods) as [target|] eqn:Hg.
  - rewrite dict_get_set, decide_True in Hget1 by done.
    injection Hget1 as <-. cbn. unfold set_add. case_decide; set_solver.
  - congruence.
Qed.

Lemma link_all_more (items mods : list (string * ModuleInfo)) :
  let final := fold_left (λ (mods : list (string * ModuleInfo))
                            (item : string * ModuleInfo),
                            link_imports item.1 (imports item.2) mods)
                 items mods in
  more_importers mods final
  ∧ ∀ k mk q mq, (k, mk) ∈ items → q ∈ imports mk →
                 dict_get q final = Some mq → k ∈ imported_by mq.
Proof.
  revert mods. induction items as [|[k0 m0] items IH]; intros mods;
    cbn [fold_left].
  { split; [apply more_importers_refl|]. by intros ???? ?%elem_of_nil. }
  destruct (link_imports_more k0 (imports m0) mods) as [Hmore0 Hlink0].
  destruct (IH (link_imports k0 (imports m0) mods)) as [Hmore Hlink].
  cbn [fst snd] in *. split; [by eapply more_importers_trans|].
  intros k mk q mq [[= -> ->]|Hin]%elem_of_cons Hq Hget; [|by eapply Hlink].
  specialize (Hmore q). rewrite Hget in Hmore.
  destruct (dict_get q (link_imports k0 (imports m0) mods)) as [m1|] eqn:Hg1;
    [|done].
  destruct Hmore as (_ & _ & Hsub). apply Hsub. by eapply Hlink0.
Qed.

Lemma more_importers_keys (mods mods' : list (string * ModuleInfo)) :
  more_importers mods mods' → ∀ q, q ∈ mods.*1 ↔ q ∈ mods'.*1.
Proof.
  intros Hmore q. specialize (Hmore q).
  destruct (dict_get q mods) as [m|] eqn:H1,
           (dict_get q mods') as [m'|] eqn:H2; try done.
  - split; intros _; by eapply dict_get_in_keys.
  - apply dict_get_None_keys in H1, H2. tauto.
Qed.

Lemma link_imports_keys (k : string) (imps : list string)
    (mods : list (string * ModuleInfo)) :
  (link_imports k imps mods).*1 = mods.*1.
Proof.
  unfold link_imports.
  apply (fold_left_invariant (λ s : list (string * ModuleInfo), s.*1 = mods.*1));
    [|done].
  intros s imported _ Hs.
  destruct (dict_get imported s) eqn:Hget; [|done].
  by rewrite (dict_set_present_keys _ _ _ _ Hget).
Qed.

Lemma second_pass_keys (modules : list (string * ModuleInfo)) :
  (second_pass modules).*1 = modules.*1.
Proof.
  unfold second_pass.
  apply (fold_left_invariant
           (λ s : list (string * ModuleInfo), s.*1 = modules.*1)); [|done].
  intros s item _ Hs. by rewrite link_imports_keys.
Qed.

Lemma second_pass_importers_NoDup (modules : list (string * ModuleInfo)) :
  Forall (λ item, NoDup (imported_by item.2)) modules →
  Forall (λ item, NoDup (imported_by item.2)) (second_pass modules).
Proof.
  unfold second_pass.
  apply (fold_left_invariant
           (λ s : list (string * ModuleInfo),
              Forall (λ item, NoDup (imported_by item.2)) s)).
  intros s item _ Hs. unfold link_imports.
  apply (fold_left_invariant
           (λ s : list (string * ModuleInfo),
              Forall (λ item, NoDup (imported_by item.2)) s)); [|done].
  clear s Hs. intros s imported _ Hs.
  destruct (dict_get imported s) as [target|] eqn:Hget; [|done].
  assert (NoDup (imported_by target)) as Htarget.
  { apply dict_get_key in Hget. rewrite Forall_forall in Hs.
    apply (Hs (imported, target) Hget). }
  clear Hget. induction s as [|[k0 m0] s IH]; cbn.
  - constructor; [by apply set_add_NoDup|constructor].
  - apply Forall_cons in Hs as [H0 Hs].
    case_decide; constructor; cbn; auto. by apply set_add_NoDup.
Qed.

Lemma extract_imports_NoDup (fs : file_system) (filepath root : list string)
    (imps : list string) :
  extract_imports_typescript fs filepath root = Ok imps → NoDup imps.
Proof.
  unfold extract_imports_typescript.
  destruct (dict_get filepath fs) as [[|captured|]|];
    try (intros [= <-]; apply NoDup_nil_2).
  apply (foldM_invariant (λ imps : list string, NoDup imps));
    [|apply NoDup_nil_2].
  intros s x s' _ Hs. destruct (startswith "." x); [|by intros [= <-]].
  destruct (resolve_import_path fs filepath x root) as [[r|]| |];
    cbn; try done; intros [= <-]; [|done].
  case_decide; [done|]. by apply set_add_NoDup.
Qed.

(** What the first pass leaves in the dictionary. *)
Lemma first_pass_result (fs : file_system) (root : list string)
    (l : list (list string)) (acc modules0 : list (string * ModuleInfo)) :
  foldM (first_pass fs root) l acc = Ok modules0 →
  (NoDup acc.*1 → NoDup modules0.*1)
  ∧ (∀ p, p ∈ modules0.*1 ↔ p ∈ acc.*1 ∨ p ∈ module_key root <$> l)
  ∧ ∀ p m, dict_get p modules0 = Some m →
      dict_get p acc = Some m
      ∨ (path m = p ∧ imported_by m = [] ∧ NoDup (imports m)).
Proof.
  revert acc. induction l as [|filepath l IH]; intros acc; cbn [foldM].
  { intros [= <-]. split; [done|]. split; [|by left].
    intros p. rewrite fmap_nil, elem_of_nil. tauto. }
  destruct (first_pass fs root acc filepath) as [acc1| |] eqn:Hstep;
    try done.
  cbn [mbind res_bind]. intros Hrest.
  destruct (IH _ Hrest) as (Hnd & Hkeys & Hget).
  unfold first_pass in Hstep.
  destruct (extract_imports_typescript fs filepath root) as [imps| |] eqn:Hx;
    try done.
  cbn [mbind res_bind] in Hstep. injection Hstep as <-.
  split; [intros Hacc; by apply Hnd, dict_set_NoDup|]. split.
  - intros p. rewrite Hkeys, dict_set_keys, fmap_cons, elem_of_cons.
    case_decide; [|rewrite elem_of_app, list_elem_of_singleton]; naive_solver.
  - intros p m Hp. destruct (Hget p m Hp) as [Hacc|]; [|by right].
    rewrite dict_get_set in Hacc. case_decide; [|by left].
    injection Hacc as <-. right. cbn. subst p. split; [done|].
    split; [done|]. by eapply extract_imports_NoDup.
Qed.

(** X2.  In the built graph the keys are distinct, each module is stored
    under its own path, its imports and importers hold no duplicates, and
    between two modules of the graph the reverse edges are exactly the
    forward edges turned round: [q] is an import of [p] if and only if [p]
    is in [q]'s imported_by. *)
Theorem reverse_edges_mirror (fs : file_system) (repo_root : list string)
    (gitignore : option (string → bool)) :
  match build_dependency_graph fs repo_root gitignore with
  | Ok modules =>
      NoDup (dict_keys modules)
      ∧ (∀ p mp, dict_get p modules = Some mp →
           path mp = p ∧ NoDup (imports mp) ∧ NoDup (imported_by mp))
      ∧ ∀ p q mp mq,
          dict_get p modules = Some mp → dict_get q modules = Some mq →
          (q ∈ imports mp ↔ p ∈ imported_by mq)
  | _ => True
  end.
Proof.
  rewrite build_dependency_graph_passes.
  destruct (foldM _ _ []) as [modules0| |] eqn:Hfirst; try done.
  cbn [mbind res_bind].
  destruct (first_pass_result _ _ _ _ _ Hfirst) as (Hnd & _ & Hget).
  specialize (Hnd (NoDup_nil_2 (A := string))).
  assert (∀ p m, dict_get p modules0 = Some m →
            path m = p ∧ imported_by m = [] ∧ NoDup (imports m)) as Hfirst'.
  { intros p m Hp. by destruct (Hget p m Hp). }
  destruct (link_all_more modules0 modules0) as [Hmore Hlink].
  fold (second_pass modules0) in Hmore, Hlink.
  destruct (second_pass_linked modules0 Hnd) as [_ Hback].
  { intros p m Hp. by destruct (Hfirst' p m Hp) as (_ & ? & _). }
  fold (second_pass modules0) in Hback.
  assert (Forall (λ item : string * ModuleInfo, NoDup (imported_by item.2))
            (second_pass modules0)) as Himp.
  { apply second_pass_importers_NoDup, Forall_forall. intros [p m] Hin.
    apply (dict_get_elem _ _ _ Hnd) in Hin. cbn.
    destruct (Hfirst' p m Hin) as (_ & -> & _). apply NoDup_nil_2. }
  split; [unfold dict_keys; by rewrite second_pass_keys|]. split.
  - intros p mp Hp. pose proof (Hmore p) as Hp0. rewrite Hp in Hp0.
    destruct (dict_get p modules0) as [m0|] eqn:Hm0; [|done].
    destruct Hp0 as (Hpath & Himports & _).
    destruct (Hfirst' p m0 Hm0) as (? & _ & ?).
    split; [congruence|]. split; [congruence|].
    rewrite Forall_forall in Himp. apply (Himp (p, mp)).
    by apply dict_get_key.
  - intros p q mp mq Hp Hq. split.
    + intros Hin. pose proof (Hmore p) as Hp0. rewrite Hp in Hp0.
      destruct (dict_get p modules0) as [m0|] eqn:Hm0; [|done].
      destruct Hp0 as (_ & Himports & _).
      apply (Hlink p m0 q mq); [by apply dict_get_key|congruence|done].
    + intros Hin. destruct (Hback q mq p Hq Hin) as (m0 & Hm0 & Hq0).
      pose proof (Hmore p) as Hp0. rewrite Hm0, Hp in Hp0.
      destruct Hp0 as (_ & Himports & _). congruence.
Qed.

Lemma source_files_spec (fs : file_system) (root : list string)
    (gitignore : option (string → bool)) (filepath : list string) :
  filepath ∈ source_files_of fs root gitignore
  ↔ ∃ node rel name ext,
      (filepath, node) ∈ fs
      ∧ relative_to root filepath = Some rel
      ∧ last rel = Some name
      ∧ ext ∈ [".ts"; ".tsx"; ".js"; ".jsx"]
      ∧ endswith ext name = true
      ∧ should_analyze_file filepath root gitignore = true.
Proof.
  unfold source_files_of. rewrite list_elem_of_bind. split.
  - intros (ext & Hin & Hext). apply list_elem_of_In, filter_In in Hin.
    destruct Hin as [Hin Hok]. apply list_elem_of_In in Hin.
    unfold rglob in Hin.
    apply list_elem_of_omap in Hin as ([fp node] & Hfs & Hsel). cbn in Hsel.
    destruct (relative_to root fp) as [rel|] eqn:Hrel; [|done].
    destruct (last rel) as [name|] eqn:Hlast; [|done].
    destruct (endswith ext name) eqn:Hend; [|done]. injection Hsel as ->.
    by exists node, rel, name, ext.
  - intros (node & rel & name & ext & Hfs & Hrel & Hlast & Hext & Hend & Hok).
    exists ext. split; [|done].
    apply list_elem_of_In, filter_In. split; [|done].
    apply list_elem_of_In. unfold rglob. apply list_elem_of_omap.
    exists (filepath, node). split; [done|]. cbn. by rewrite Hrel, Hlast, Hend.
Qed.

(** X3.  The modules of the built graph are exactly the entries of the
    file system below the repository root whose name ends with one of the
    four extensions and that [should_analyze_file] accepts, each under its
    root-relative path; a file without imports is a module too, and so is
    an unreadable file or a directory with such a name. *)
Theorem graph_nodes_are_sources (fs : file_system) (repo_root : list string)
    (gitignore : option (string → bool)) :
  match build_dependency_graph fs repo_root gitignore with
  | Ok modules =>
      ∀ p, p ∈ dict_keys modules
           ↔ ∃ filepath node rel name ext,
               (filepath, node) ∈ fs
               ∧ relative_to repo_root filepath = Some rel
               ∧ last rel = Some name
               ∧ ext ∈ [".ts"; ".tsx"; ".js"; ".jsx"]
               ∧ endswith ext name = true
               ∧ should_analyze_file filepath repo_root gitignore = true
               ∧ p = as_posix rel
  | _ => True
  end.
Proof.
  rewrite build_dependency_graph_passes.
  destruct (foldM _ _ []) as [modules0| |] eqn:Hfirst; try done.
  cbn [mbind res_bind].
  destruct (first_pass_result _ _ _ _ _ Hfirst) as (_ & Hkeys & _).
  intros p. unfold dict_keys. rewrite second_pass_keys, Hkeys. split.
  - intros [?%elem_of_nil|(filepath & -> & Hin)%list_elem_of_fmap]; [done|].
    apply source_files_spec in Hin
      as (node & rel & name & ext & ? & Hrel & ? & ? & ? & ?).
    exists filepath, node, rel, name, ext. unfold module_key.
    by rewrite Hrel.
  - intros (filepath & node & rel & name & ext & ? & Hrel & ? & ? & ? & ? & ->).
    right. apply list_elem_of_fmap.
    exists filepath. split; [unfold module_key; by rewrite Hrel|].
    apply source_files_spec. by exists node, rel, name, ext.
Qed.

(** X4.  [should_analyze_file] tests the components of the absolute path,
    those of the repository root included: when the root itself lies below
    a directory with one of the skipped names, no file is analyzed and the
    graph is empty. *)
Theorem root_below_skipped_directory (fs : file_system)
    (repo_root : list string) (gitignore : option (string → bool))
    (part : string) :
  part ∈ skip_dirs → part ∈ repo_root →
  build_dependency_graph fs repo_root gitignore = Ok [].
Proof.
  intros Hskip Hpart. rewrite build_dependency_graph_passes.
  assert (source_files_of fs repo_root gitignore = []) as ->; [|done].
  destruct (source_files_of fs repo_root gitignore) as [|filepath l] eqn:Hsrc;
    [done|].
  assert (filepath ∈ source_files_of fs repo_root gitignore) as Hin
    by (rewrite Hsrc; left).
  apply source_files_spec in Hin
    as (node & rel & name & ext & _ & Hrel & _ & _ & _ & Hok).
  apply relative_to_app in Hrel as ->. unfold should_analyze_file in Hok.
  assert (existsb (λ part, bool_decide (part ∈ skip_dirs))
            ("/" :: repo_root ++ rel) = true) as Hex.
  { apply existsb_exists. exists part. split.
    - apply list_elem_of_In. set_solver.
    - by apply bool_decide_eq_true. }
  by rewrite Hex in Hok.
Qed.

Lemma root_below_skipped_directory_witness :
  build_dependency_graph
    [ (["home"; "dev"; "out"; "repo"; "src"; "a.ts"], File ["./b"]);
      (["home"; "dev"; "out"; "repo"; "src"; "b.ts"], File []) ]
    ["home"; "dev"; "out"; "repo"] None
  = Ok [].
Proof.
  apply (root_below_skipped_directory _ _ _ "out").
  - apply (bool_decide_unpack _). by vm_compute.
  - apply (bool_decide_unpack _). by vm_compute.
Defined.

(** ** Threshold reports *)

Lemma omap_length_le {A B : Type} (f : A → option B) (l : list A) :
  (length (omap f l) ≤ length l)%nat.
Proof.
  induction l as [|x l IH]; cbn; [lia|]. destruct (f x); cbn; lia.
Qed.

Lemma stable_sort_desc_nat {A : Type} (key : A → nat) (l : list A) :
  StronglySorted (λ a b, (key b ≤ key a)%nat)
    (stable_sort (λ x y, (key y <=? key x)%nat) l).
Proof.
  eapply StronglySorted_mono; [|apply stable_sort_sorted].
  - intros a b Hab. by apply Nat.leb_le in Hab.
  - intros a b Hab. apply Nat.leb_gt in Hab. apply Nat.leb_le. lia.
  - intros a b c Hab%Nat.leb_le Hbc%Nat.leb_le. apply Nat.leb_le. lia.
Qed.

(** X5.  [find_highly_coupled_modules] reports exactly the modules whose
    fan-out is strictly above the threshold (a module with exactly
    [threshold] imports is not reported), each with its fan-out and its
    imports in sorted order, and lists them by non-increasing fan-out. *)
Theorem highly_coupled_report (modules : list (string * ModuleInfo))
    (threshold : nat) :
  let report := find_highly_coupled_modules modules threshold in
  Forall (λ e,
      (threshold < cm_fan_out e)%nat
      ∧ ∃ m, (cm_path e, m) ∈ modules
             ∧ cm_fan_out e = fan_out m
             ∧ cm_imports e ≡ₚ imports m
             ∧ StronglySorted (λ a b, String.leb a b = true) (cm_imports e))
    report
  ∧ (∀ p m, (p, m) ∈ modules → (threshold < fan_out m)%nat →
            p ∈ cm_path <$> report)
  ∧ StronglySorted (λ a b, (cm_fan_out b ≤ cm_fan_out a)%nat) report
  ∧ (length report ≤ length modules)%nat.
Proof.
  cbv zeta. unfold find_highly_coupled_modules.
  set (select := omap _ modules).
  assert (∀ e, e ∈ select ↔
            ∃ p m, (p, m) ∈ modules ∧ (threshold < fan_out m)%nat
                   ∧ e = {| cm_path := p; cm_fan_out := fan_out m;
                            cm_imports := sorted_strings (imports m) |})
    as Hsel.
  { intros e. unfold select. rewrite list_elem_of_omap. split.
    - intros ([p m] & Hin & Hopt). cbn [fst snd] in Hopt.
      destruct (Nat.ltb_spec threshold (fan_out m)); [|done].
      injection Hopt as <-. by exists p, m.
    - intros (p & m & Hin & Hlt & ->). exists (p, m). split; [done|].
      cbn [fst snd]. destruct (Nat.ltb_spec threshold (fan_out m)); [done|lia]. }
  split; [|split; [|split]].
  - apply Forall_forall. intros e He. rewrite stable_sort_perm in He.
    apply Hsel in He as (p & m & Hin & Hlt & ->). cbn. split; [done|].
    exists m. split; [done|]. split; [done|].
    split; [apply sorted_strings_perm|apply sorted_strings_sorted].
  - intros p m Hin Hlt. rewrite stable_sort_perm.
    apply list_elem_of_fmap. eexists. split; [|apply Hsel; by exists p, m].
    done.
  - apply (stable_sort_desc_nat cm_fan_out).
  - rewrite stable_sort_length. unfold select. apply omap_length_le.
Qed.

(** X6.  [find_hub_modules] reports exactly the modules whose fan-in is
    strictly above the threshold, each with its fan-in and its importers in
    sorted order, and lists them by non-increasing fan-in. *)
Theorem hub_report (modules : list (string * ModuleInfo)) (threshold : nat) :
  let report := find_hub_modules modules threshold in
  Forall (λ e,
      (threshold < hub_fan_in e)%nat
      ∧ ∃ m, (hub_path e, m) ∈ modules
             ∧ hub_fan_in e = fan_in m
             ∧ hub_imported_by e ≡ₚ imported_by m
             ∧ StronglySorted (λ a b, String.leb a b = true)
                 (hub_imported_by e))
    report
  ∧ (∀ p m, (p, m) ∈ modules → (threshold < fan_in m)%nat →
            p ∈ hub_path <$> report)
  ∧ StronglySorted (λ a b, (hub_fan_in b ≤ hub_fan_in a)%nat) report
  ∧ (length report ≤ length modules)%nat.
Proof.
  cbv zeta. unfold find_hub_modules.
  set (select := omap _ modules).
  assert (∀ e, e ∈ select ↔
            ∃ p m, (p, m) ∈ modules ∧ (threshold < fan_in m)%nat
                   ∧ e = {| hub_path := p; hub_fan_in := fan_in m;
                            hub_imported_by :=
                              sorted_strings (imported_by m) |})
    as Hsel.
  { intros e. unfold select. rewrite list_elem_of_omap. split.
    - intros ([p m] & Hin & Hopt). cbn [fst snd] in Hopt.
      destruct (Nat.ltb_spec threshold (fan_in m)); [|done].
      injection Hopt as <-. by exists p, m.
    - intros (p & m & Hin & Hlt & ->). exists (p, m). split; [done|].
      cbn [fst snd]. destruct (Nat.ltb_spec threshold (fan_in m)); [done|lia]. }
  split; [|split; [|split]].
  - apply Forall_forall. intros e He. rewrite stable_sort_perm in He.
    apply Hsel in He as (p & m & Hin & Hlt & ->). cbn. split; [done|].
    exists m. split; [done|]. split; [done|].
    split; [apply sorted_strings_perm|apply sorted_strings_sorted].
  - intros p m Hin Hlt. rewrite stable_sort_perm.
    apply list_elem_of_fmap. eexists. split; [|apply Hsel; by exists p, m].
    done.
  - apply (stable_sort_desc_nat hub_fan_in).
  - rewrite stable_sort_length. unfold select. apply omap_length_le.
Qed.

(** ** Layers *)

Lemma find_indexed (parts L : list string) (k : nat) :
  match List.find (λ il : nat * string, bool_decide (il.2 ∈ parts))
          (imap (λ i layer, (k + i, layer)%nat) L) with
  | Some (i, name) =>
      ∃ i0, i = (k + i0)%nat ∧ L !! i0 = Some name ∧ name ∈ parts
            ∧ ∀ j other, (j < i0)%nat → L !! j = Some other → other ∉ parts
  | None => ∀ other, other ∈ L → other ∉ parts
  end.
Proof.
  revert k. induction L as [|x L IH]; intros k.
  { cbn. by intros other ?%elem_of_nil. }
  rewrite imap_cons. cbn [List.find snd].
  destruct (bool_decide_reflect (x ∈ parts)) as [Hx|Hx].
  - exists 0%nat. split; [lia|]. split; [done|]. split; [done|]. lia.
  - specialize (IH (S k)).
    rewrite (imap_ext _ ((λ i layer, (k + i, layer)%nat) ∘ S)) in IH.
    2: { intros i y _. cbn. f_equal. lia. }
    destruct (List.find _ _) as [[i name]|].
    + destruct IH as (i0 & -> & Hi0 & Hname & Hfirst).
      exists (S i0). split; [lia|]. split; [done|]. split; [done|].
      intros [|j] other Hj; cbn; [by intros [= <-]|].
      apply Hfirst. lia.
    + intros other [->|Hin]%elem_of_cons; [done|]. by apply IH.
Qed.

Lemma lower_char_idemp (c : ascii) : lower_char (lower_char c) = lower_char c.
Proof. by destruct c as [[] [] [] [] [] [] [] []]. Qed.

Lemma lower_idemp (s : string) : lower (lower s) = lower s.
Proof.
  unfold lower. rewrite list_ascii_of_string_of_list_ascii, <- list_fmap_compose.
  f_equal. apply list_fmap_ext. intros _ c _. apply lower_char_idemp.
Qed.

Lemma get_layer_bound (p : string) : (get_layer p ≤ length layer_order)%nat.
Proof.
  unfold get_layer.
  pose proof (find_indexed (split_char "/" (lower p)) layer_order 0) as H.
  cbn [Nat.add] in H.
  destruct (List.find _ _) as [[i name]|]; cbn; [|done].
  destruct H as (i0 & -> & Hi0 & _). apply lookup_lt_Some in Hi0.
  cbn in *. lia.
Qed.

(** X7.  The layer of a path is at most the number of layer names.  When
    it is the index of a layer name, that name is a segment of the
    lower-cased path and no earlier name of [layer_order] is one (the order
    of [layer_order] decides, not the order of the segments); otherwise no
    layer name is a segment.  Letter case does not matter. *)
Theorem get_layer_spec (p : string) :
  let parts := split_char "/" (lower p) in
  (get_layer p ≤ length layer_order)%nat
  ∧ match layer_order !! get_layer p with
    | Some name =>
        name ∈ parts
        ∧ ∀ j other, (j < get_layer p)%nat → layer_order !! j = Some other →
                     other ∉ parts
    | None =>
        get_layer p = length layer_order
        ∧ ∀ other, other ∈ layer_order → other ∉ parts
    end
  ∧ get_layer (lower p) = get_layer p.
Proof.
  cbv zeta. split; [|split]; [| |unfold get_layer; by rewrite lower_idemp].
  - apply get_layer_bound.
  - unfold get_layer.
    pose proof (find_indexed (split_char "/" (lower p)) layer_order 0) as H.
    cbn [Nat.add] in H.
    destruct (List.find _ _) as [[i name]|].
    + destruct H as (i0 & -> & Hi0 & Hname & Hfirst).
      cbn -[layer_order]. rewrite Hi0. split; [done|]. exact Hfirst.
    + cbn -[layer_order]. rewrite lookup_ge_None_2 by done. done.
Qed.

(** X8.  A layer violation is reported exactly for an import edge from a
    module to a path of a higher layer; the imported path need not be a
    module of the graph.  The layer of the importing side is always one of
    the named layers, never ["unknown"], so a module outside every named
    layer is never reported as the source of a violation. *)
Theorem layer_violations_spec (modules : list (string * ModuleInfo)) :
  (∀ e, e ∈ compute_layer_violations modules
        ↔ ∃ p m q,
            (p, m) ∈ modules ∧ q ∈ imports m
            ∧ (get_layer p < get_layer q)%nat
            ∧ e = {| lv_from := p;
                     lv_from_layer := layer_name (get_layer p);
                     lv_imports := q;
                     lv_imports_layer := layer_name (get_layer q) |})
  ∧ Forall (λ e,
        lv_from_layer e ∈ layer_order
        ∧ lv_from_layer e ≠ "unknown"
        ∧ (get_layer (lv_from e) < length layer_order)%nat)
      (compute_layer_violations modules).
Proof.
  assert (∀ e, e ∈ compute_layer_violations modules
        ↔ ∃ p m q,
            (p, m) ∈ modules ∧ q ∈ imports m
            ∧ (get_layer p < get_layer q)%nat
            ∧ e = {| lv_from := p;
                     lv_from_layer := layer_name (get_layer p);
                     lv_imports := q;
                     lv_imports_layer := layer_name (get_layer q) |})
    as Hspec.
  { intros e. unfold compute_layer_violations. rewrite list_elem_of_bind.
    split.
    - intros ([p m] & Hin & Hitem).
      apply list_elem_of_omap in Hin as (q & Hq & Hsel). cbn [fst snd] in *.
      destruct (Nat.ltb_spec (get_layer p) (get_layer q)); [|done].
      injection Hsel as <-. by exists p, m, q.
    - intros (p & m & q & Hin & Hq & Hlt & ->). exists (p, m).
      split; [|done]. apply list_elem_of_omap. exists q. split; [done|].
      cbn [fst snd].
      destruct (Nat.ltb_spec (get_layer p) (get_layer q)); [done|lia]. }
  split; [done|]. apply Forall_forall. intros e He.
  apply Hspec in He as (p & m & q & _ & _ & Hlt & ->). cbn [lv_from_layer lv_from].
  pose proof (get_layer_bound q) as Hq.
  assert (get_layer p < length layer_order)%nat as Hp by lia.
  unfold layer_name.
  destruct (layer_order !! get_layer p) as [name|] eqn:Hname.
  - cbn. assert (name ∈ layer_order) as Hin
      by (by eapply list_elem_of_lookup_2).
    split; [done|]. split; [|done]. intros ->.
    revert Hin. apply (bool_decide_unpack _). by vm_compute.
  - apply lookup_ge_None in Hname. lia.
Qed.

(** ** Instability at its ends *)

Lemma Qdiv_eq_one (x y : Q) : ¬ (y == 0)%Q → (x / y == 1)%Q ↔ (x == y)%Q.
Proof.
  intros Hy. split.
  - intros H1. rewrite <- (Qmult_1_l y), <- H1.
    unfold Qdiv. rewrite <- Qmult_assoc, (Qmult_comm (/ y)), Qmult_inv_r by done.
    by rewrite Qmult_1_r.
  - intros ->. unfold Qdiv. by apply Qmult_inv_r.
Qed.

Lemma Qdiv_eq_zero (x y : Q) : ¬ (y == 0)%Q → (x / y == 0)%Q ↔ (x == 0)%Q.
Proof.
  intros Hy. split.
  - intros H0. rewrite <- (Qmult_0_l y), <- H0.
    unfold Qdiv. rewrite <- Qmult_assoc, (Qmult_comm (/ y)), Qmult_inv_r by done.
    by rewrite Qmult_1_r.
  - intros ->. unfold Qdiv. apply Qmult_0_l.
Qed.

(** X9.  The instability of a module is 1 exactly when it has imports and
    nothing imports it, and 0 exactly when it imports nothing. *)
Theorem instability_extremes (m : ModuleInfo) :
  ((instability m == 1)%Q ↔ fan_in m = 0%nat ∧ (0 < fan_out m)%nat)
  ∧ ((instability m == 0)%Q ↔ fan_out m = 0%nat).
Proof.
  unfold instability.
  destruct (Nat.eqb_spec (fan_in m + fan_out m) 0) as [Hz|Hnz].
  - split; split; try done; try lia.
  - assert (¬ (inject_Z (Z.of_nat (fan_in m + fan_out m)) == 0)%Q) as Hden.
    { change 0%Q with (inject_Z 0). rewrite inject_Z_injective. lia. }
    split.
    + rewrite Qdiv_eq_one by done. rewrite inject_Z_injective. lia.
    + rewrite Qdiv_eq_zero by done. change 0%Q with (inject_Z 0).
      rewrite inject_Z_injective. lia.
Qed.

(** ** Statistics of the history *)

Lemma set_add_length {A : Type} `{EqDecision A} (x : A) (l : list A) :
  (length l ≤ length (set_add x l) ≤ S (length l))%nat
  ∧ (1 ≤ length (set_add x l))%nat.
Proof.
  unfold set_add. case_decide as Hx.
  - destruct l; [by apply elem_of_nil in Hx|]. cbn. lia.
  - rewrite length_app. cbn. lia.
Qed.

Lemma record_change_ok (tracked_files : list string) (filepath : string)
    (added removed date : Z) (author : string)
    (file_stats : list (string * FileStats)) :
  filepath ∈ tracked_files → _should_skip_file filepath = false →
  (∀ f s, dict_get f file_stats = Some s → stats_ok tracked_files f s) →
  ∀ f s, dict_get f (record_change filepath added removed date author
                       file_stats) = Some s →
         stats_ok tracked_files f s.
Proof.
  intros Htracked Hskip Hall f s. unfold record_change.
  rewrite dict_get_set. case_decide as Hf; [|apply Hall].
  subst f. intros [= <-].
  destruct (dict_get filepath file_stats) as [old|] eqn:Hold; cbn [default].
  - destruct (Hall _ _ Hold)
      as (Hpath & _ & _ & Hcc & Hac & Hle & Hnd & a & b & Hfirst & Hlast & Hab).
    unfold stats_ok, author_count in *. cbn.
    pose proof (set_add_length author (authors old)) as [[? ?] ?].
    rewrite Hfirst, Hlast.
    repeat split; try done; try lia; [by apply set_add_NoDup|].
    destruct (Z.ltb_spec b date), (Z.ltb_spec date a);
      eexists _, _; (split; [done|]); (split; [done|]); lia.
  - unfold stats_ok, author_count. cbn.
    repeat split; try done; try lia.
    + apply NoDup_singleton.
    + exists date, date. repeat split; lia.
Qed.

Lemma git_log_line_ok (parse : string → option Z)
    (tracked_files : list string)
    (st : list (string * FileStats) * option (string * Z * string))
    (raw : string) :
  (NoDup st.1.*1
   ∧ ∀ f s, dict_get f st.1 = Some s → stats_ok tracked_files f s) →
  NoDup (git_log_line parse tracked_files st raw).1.*1
  ∧ ∀ f s, dict_get f (git_log_line parse tracked_files st raw).1 = Some s →
           stats_ok tracked_files f s.
Proof.
  destruct st as [file_stats info]. cbn [fst]. intros [Hnd Hall].
  unfold git_log_line, numstat_line.
  repeat case_match; subst; cbn [fst]; try done.
  all: split; [by apply dict_set_NoDup|].
  all: apply record_change_ok; try done.
  all: match goal with
       | H : negb (bool_decide _) = false |- _ =>
           by apply negb_false_iff, bool_decide_eq_true in H
       end.
Qed.

(** X10.  In the statistics that [analyze_git_log] returns every file is
    stored once, under its own path; it is a tracked file that
    [_should_skip_file] does not exclude; it has at least one change and at
    least one author, never more authors than changes, and its first-seen
    time is not after its last-modified time. *)
Theorem git_log_stats_invariant (parse : string → option Z) (git : git_tool) :
  match analyze_git_log parse git with
  | Ok stats =>
      NoDup (dict_keys stats)
      ∧ ∀ f s, dict_get f stats = Some s →
          ∃ tracked_files,
            get_tracked_files git = Ok tracked_files
            ∧ stats_ok tracked_files f s
  | _ => True
  end.
Proof.
  unfold analyze_git_log, run_git_command.
  destruct (git numstat_args) as [log|e|];
    [|destruct e; try done; split; [apply NoDup_nil_2|done]|done].
  - cbn [mbind res_bind].
    destruct (get_tracked_files git) as [tracked| |]; try done.
    cbn [mbind res_bind].
    assert (NoDup (fold_left (git_log_line parse tracked)
                     (split_char LF log) ([], None)).1.*1
            ∧ ∀ f s, dict_get f (fold_left (git_log_line parse tracked)
                                   (split_char LF log) ([], None)).1 = Some s →
                     stats_ok tracked f s) as [Hnd Hall].
    { apply (fold_left_invariant
               (λ st : list (string * FileStats)
                       * option (string * Z * string),
                  NoDup st.1.*1
                  ∧ ∀ f s, dict_get f st.1 = Some s → stats_ok tracked f s)).
      - intros st raw _. apply git_log_line_ok.
      - split; [apply NoDup_nil_2|done]. }
    split; [done|]. intros f s Hf. exists tracked. split; [done|]. by apply Hall.
Qed.

Lemma hotspot_key_le_hotter (x y : FileStats) :
  hotspot_key_le x y = true ↔ hotter y x.
Proof.
  unfold hotspot_key_le, hotter.
  destruct (Nat.eqb_spec (change_count x) (change_count y)) as [Heq|Hne].
  - rewrite Z.leb_le. lia.
  - rewrite Nat.leb_le. lia.
Qed.

Lemma hotspots_sorted (l : list FileStats) :
  StronglySorted hotter (stable_sort (λ x y, hotspot_key_le y x) l).
Proof.
  eapply StronglySorted_mono; [|apply stable_sort_sorted].
  - intros a b Hab. by apply hotspot_key_le_hotter in Hab.
  - intros a b Hab. cbn in Hab. apply hotspot_key_le_hotter.
    assert (¬ hotter a b) as Hn by (by rewrite <- hotspot_key_le_hotter, Hab).
    unfold hotter in *. lia.
  - intros a b c Hab%hotspot_key_le_hotter Hbc%hotspot_key_le_hotter.
    apply hotspot_key_le_hotter. unfold hotter in *. lia.
Qed.

(** X11.  [get_hotspots] returns the [top_n] highest-ranked files (all of
    them when there are fewer): the files split into the reported ones and
    the rest so that the whole is ordered by change count, then churn, from
    high to low; no reported file ranks below an unreported one. *)
Theorem hotspots_ranked (file_stats : list (string * FileStats))
    (top_n : nat) :
  ∃ top rest,
    get_hotspots file_stats top_n = to_dict <$> top
    ∧ top ++ rest ≡ₚ dict_values file_stats
    ∧ length top = Nat.min top_n (length file_stats)
    ∧ StronglySorted hotter (top ++ rest)
    ∧ ∀ a b, a ∈ top → b ∈ rest → hotter a b.
Proof.
  set (ranked := stable_sort (λ x y, hotspot_key_le y x)
                   (dict_values file_stats)).
  exists (take top_n ranked), (drop top_n ranked).
  pose proof (hotspots_sorted (dict_values file_stats)) as Hsorted.
  fold ranked in Hsorted.
  split; [done|]. rewrite take_drop.
  split; [apply stable_sort_perm|]. split.
  - rewrite length_take. unfold ranked, dict_values.
    by rewrite stable_sort_length, length_fmap.
  - split; [done|]. intros a b Ha Hb.
    rewrite <- (take_drop top_n ranked) in Hsorted.
    by eapply StronglySorted_app_1_elem_of.
Qed.

(** ** Bus factor *)

Lemma set_add_elem {A : Type} `{EqDecision A} (x y : A) (l : list A) :
  y ∈ set_add x l ↔ y = x ∨ y ∈ l.
Proof. unfold set_add. case_decide; set_solver. Qed.

Lemma add_all_spec (xs acc : list string) :
  (NoDup acc → NoDup (fold_left (λ a x, set_add x a) xs acc))
  ∧ ∀ y, y ∈ fold_left (λ a x, set_add x a) xs acc ↔ y ∈ acc ∨ y ∈ xs.
Proof.
  revert acc. induction xs as [|x xs IH]; intros acc; cbn [fold_left].
  { split; [done|]. intros y. rewrite elem_of_nil. tauto. }
  destruct (IH (set_add x acc)) as [Hnd Hin].
  split; [intros Hacc; by apply Hnd, set_add_NoDup|].
  intros y. rewrite Hin, set_add_elem, elem_of_cons. tauto.
Qed.

Lemma all_authors_spec (values : list FileStats) (acc : list string) :
  let all := fold_left (λ acc stats,
                 fold_left (λ a x, set_add x a) (authors stats) acc)
               values acc in
  (NoDup acc → NoDup all)
  ∧ ∀ y, y ∈ all ↔ y ∈ acc ∨ ∃ s, s ∈ values ∧ y ∈ authors s.
Proof.
  revert acc. induction values as [|s values IH]; intros acc; cbn [fold_left].
  { split; [done|]. intros y. split; [by left|].
    by intros [?|(s & ?%elem_of_nil & _)]. }
  destruct (add_all_spec (authors s) acc) as [Hnd0 Hin0].
  destruct (IH (fold_left (λ a x, set_add x a) (authors s) acc))
    as [Hnd Hin].
  split; [intros Hacc; by apply Hnd, Hnd0|].
  intros y. rewrite Hin, Hin0. split.
  - intros [[?|?]|(s' & ? & ?)]; [by left|right..].
    + exists s. split; [left|done].
    + exists s'. split; [by right|done].
  - intros [?|(s' & [->|?]%elem_of_cons & ?)]; [by left; left|by left; right|].
    right. by exists s'.
Qed.

Lemma sorted_strings_singleton (a : string) : sorted_strings [a] = [a].
Proof. done. Qed.

(** The loop that collects the knowledge silos. *)
Lemma collect_silos (values : list FileStats) (acc : list knowledge_silo) :
  ∃ found,
    foldM (λ acc stats,
             if bool_decide (author_count stats = 1%nat)
                && (3 <=? change_count stats)%nat
             then
               author ← or_raise IndexError
                          (head (sorted_strings (authors stats)));
               Ok (acc ++ [ {| silo_path := fs_path stats;
                               sole_author := author |} ])
             else Ok acc) values acc
    = Ok (acc ++ found)
    ∧ Forall (λ silo, ∃ s, s ∈ values
                           ∧ fs_path s = silo_path silo
                           ∧ authors s = [sole_author silo]
                           ∧ (3 ≤ change_count s)%nat) found
    ∧ silo_path <$> found = fs_path <$> List.filter at_risk values.
Proof.
  revert acc. induction values as [|s values IH]; intros acc; cbn [foldM].
  { exists []. rewrite app_nil_r. split; [done|]. split; [constructor|done]. }
  cbn [List.filter]. unfold at_risk at 1.
  destruct (bool_decide (author_count s = 1%nat)
            && (3 <=? change_count s)%nat) eqn:Hrisk.
  - apply andb_true_iff in Hrisk as [Hone%bool_decide_eq_true Hthree%Nat.leb_le].
    unfold author_count in Hone.
    destruct (authors s) as [|a [|? ?]] eqn:Hauthors; try done.
    rewrite sorted_strings_singleton. cbn [head or_raise mbind res_bind].
    destruct (IH (acc ++ [ {| silo_path := fs_path s; sole_author := a |} ]))
      as (found & -> & Hall & Hpaths).
    exists ({| silo_path := fs_path s; sole_author := a |} :: found).
    rewrite <- (assoc_L app). split; [done|]. split.
    + constructor.
      * exists s. cbn. split; [left|done].
      * eapply Forall_impl; [exact Hall|]. intros silo (s' & ? & ?).
        exists s'. split; [by right|done].
    + change (fs_path s :: (silo_path <$> found)
              = fs_path s :: (fs_path <$> List.filter at_risk values)).
      by rewrite Hpaths.
  - cbn [mbind res_bind].
    destruct (IH acc) as (found & -> & Hall & Hpaths).
    exists found. split; [done|]. split; [|done].
    eapply Forall_impl; [exact Hall|]. intros silo (s' & ? & ?).
    exists s'. split; [by right|done].
Qed.

(** The loop that reads the sort keys of the silos. *)
Lemma key_silos (file_stats : list (string * FileStats))
    (silos : list knowledge_silo) (acc : list (nat * knowledge_silo)) :
  Forall (λ silo, is_Some (dict_get (silo_path silo) file_stats)) silos →
  foldM (λ acc silo,
           stats ← or_raise KeyError (dict_get (silo_path silo) file_stats);
           Ok (acc ++ [(change_count stats, silo)])) silos acc
  = Ok (acc ++ ((λ silo, (silo_changes file_stats silo, silo)) <$> silos)).
Proof.
  revert acc. induction silos as [|silo silos IH]; intros acc Hall;
    cbn [foldM fmap list_fmap].
  { by rewrite app_nil_r. }
  apply Forall_cons in Hall as [[stats Hstats] Hall].
  rewrite Hstats. cbn [or_raise mbind res_bind]. rewrite IH by done.
  rewrite <- (assoc_L app). unfold silo_changes at 2. by rewrite Hstats.
Qed.

Lemma StronglySorted_fmap_on {A B : Type} (P : A → Prop) (R : A → A → Prop)
    (R' : B → B → Prop) (f : A → B) (l : list A) :
  (∀ a b, P a → P b → R a b → R' (f a) (f b)) →
  Forall P l → StronglySorted R l → StronglySorted R' (f <$> l).
Proof.
  intros HR HP Hsorted. induction Hsorted as [|x l Hl IH Hx]; cbn.
  { constructor. }
  apply Forall_cons in HP as [Hpx HP]. constructor; [by apply IH|].
  apply Forall_fmap. rewrite Forall_forall in Hx, HP.
  apply Forall_forall. intros y Hy. apply HR; auto.
Qed.

Lemma at_risk_single (values : list FileStats) :
  (length (List.filter at_risk values)
   ≤ length (List.filter (λ stats, bool_decide (author_count stats = 1%nat))
               values))%nat.
Proof.
  induction values as [|s values IH]; cbn [List.filter]; [done|].
  unfold at_risk at 1.
  destruct (bool_decide (author_count s = 1%nat)); cbn [andb length].
  - destruct (3 <=? change_count s)%nat; cbn [length]; lia.
  - done.
Qed.

Lemma keyed_by_path_lookup (file_stats : list (string * FileStats))
    (s : FileStats) :
  keyed_by_path file_stats → s ∈ dict_values file_stats →
  is_Some (dict_get (fs_path s) file_stats).
Proof.
  intros Hkeyed ([k s'] & -> & Hin)%list_elem_of_fmap.
  unfold keyed_by_path in Hkeyed. rewrite Forall_forall in Hkeyed.
  specialize (Hkeyed _ Hin). cbn in *.
  destruct (dict_get (fs_path s') file_stats) eqn:Hget; [done|].
  apply dict_get_None_keys in Hget. destruct Hget.
  apply list_elem_of_fmap. exists (k, s'). by rewrite Hkeyed.
Qed.

(** The report of [calculate_bus_factor] written out, with the silos in
    the order of [file_stats.values()] before they are sorted. *)
Lemma bus_factor_value (file_stats : list (string * FileStats)) :
  keyed_by_path file_stats →
  ∃ silos,
    Forall (silo_of file_stats) silos
    ∧ silo_path <$> silos
      = fs_path <$> List.filter at_risk (dict_values file_stats)
    ∧ calculate_bus_factor file_stats
      = Ok {| total_authors :=
                length (fold_left
                          (λ acc stats,
                             fold_left (λ a x, set_add x a) (authors stats) acc)
                          (dict_values file_stats) []);
              single_author_file_count :=
                length (List.filter
                          (λ stats, bool_decide (author_count stats = 1%nat))
                          (dict_values file_stats));
              single_author_file_ratio :=
                match file_stats with
                | [] => 0%Q
                | _ =>
                    round3
                      (inject_Z
                         (Z.of_nat
                            (length
                               (List.filter
                                  (λ stats,
                                     bool_decide (author_count stats = 1%nat))
                                  (dict_values file_stats))))
                       / inject_Z (Z.of_nat (length file_stats)))
                end;
              knowledge_silos :=
                take 20
                  (snd <$> stable_sort
                             (λ x y : nat * knowledge_silo, (y.1 <=? x.1)%nat)
                             ((λ silo, (silo_changes file_stats silo, silo))
                                <$> silos)) |}.
Proof.
  intros Hkeyed. unfold calculate_bus_factor.
  destruct (collect_silos (dict_values file_stats) [])
    as (silos & -> & Hsilos & Hpaths).
  exists silos. split; [done|]. split; [done|].
  cbn [app mbind res_bind].
  rewrite key_silos.
  2:{ eapply Forall_impl; [exact Hsilos|].
      intros silo (s & Hs & <- & _). by apply keyed_by_path_lookup. }
  cbn [app mbind res_bind]. by rewrite !length_fmap.
Qed.

(** X12.  On statistics stored under their own paths [calculate_bus_factor]
    returns a report.  [total_authors] counts the distinct authors of all
    files, [single_author_file_count] the files with exactly one author.
    The knowledge silos are the files with one author and at least three
    changes, named with that author, ordered by the change count that the
    lookup of their path yields, from high to low, and cut to the first
    twenty: no silo that was cut off has more changes than a reported one. *)
Theorem bus_factor_report_spec (file_stats : list (string * FileStats)) :
  keyed_by_path file_stats →
  ∃ report all_authors rest,
    calculate_bus_factor file_stats = Ok report
    ∧ NoDup all_authors
    ∧ (∀ a, a ∈ all_authors
            ↔ ∃ s, s ∈ dict_values file_stats ∧ a ∈ authors s)
    ∧ total_authors report = length all_authors
    ∧ single_author_file_count report
      = length (List.filter
                  (λ stats, bool_decide (author_count stats = 1%nat))
                  (dict_values file_stats))
    ∧ (file_stats = [] → (single_author_file_ratio report == 0)%Q)
    ∧ Forall (silo_of file_stats) (knowledge_silos report ++ rest)
    ∧ silo_path <$> (knowledge_silos report ++ rest)
      ≡ₚ fs_path <$> List.filter at_risk (dict_values file_stats)
    ∧ length (knowledge_silos report)
      = Nat.min 20 (length (List.filter at_risk (dict_values file_stats)))
    ∧ (length (knowledge_silos report)
       ≤ single_author_file_count report)%nat
    ∧ StronglySorted
        (λ a b, (silo_changes file_stats b ≤ silo_changes file_stats a)%nat)
        (knowledge_silos report ++ rest)
    ∧ ∀ a b, a ∈ knowledge_silos report → b ∈ rest →
             (silo_changes file_stats b ≤ silo_changes file_stats a)%nat.
Proof.
  intros Hkeyed.
  destruct (bus_factor_value file_stats Hkeyed)
    as (silos & Hsilos & Hpaths & ->).
  set (keyed := (λ silo, (silo_changes file_stats silo, silo)) <$> silos).
  set (ranked := stable_sort (λ x y : nat * knowledge_silo, (y.1 <=? x.1)%nat)
                   keyed).
  assert (ranked ≡ₚ keyed) as Hperm by apply stable_sort_perm.
  assert (snd <$> ranked ≡ₚ silos) as Hperm'.
  { rewrite Hperm. unfold keyed. rewrite <- list_fmap_compose.
    by rewrite list_fmap_id. }
  assert (StronglySorted
            (λ a b, (silo_changes file_stats b ≤ silo_changes file_stats a)%nat)
            (snd <$> ranked)) as Hsorted.
  { eapply (StronglySorted_fmap_on
              (λ x : nat * knowledge_silo, x.1 = silo_changes file_stats x.2)
              (λ a b : nat * knowledge_silo, (b.1 ≤ a.1)%nat)).
    - intros a b -> ->. done.
    - apply Forall_forall. intros x Hx. rewrite Hperm in Hx.
      apply list_elem_of_fmap in Hx as (silo & -> & _). done.
    - apply (stable_sort_desc_nat fst). }
  destruct (all_authors_spec (dict_values file_stats) []) as [Hnd Hall].
  eexists _, _, (drop 20 (snd <$> ranked)).
  split; [reflexivity|]. cbn [total_authors single_author_file_count
    single_author_file_ratio knowledge_silos].
  rewrite take_drop.
  split; [apply Hnd, NoDup_nil_2|]. split.
  { intros a. rewrite Hall, elem_of_nil. tauto. }
  split; [done|]. split; [done|]. split.
  { by intros ->. }
  split; [by rewrite Hperm'|].
  split; [by rewrite Hperm', Hpaths|].
  assert (length (take 20 (snd <$> ranked))
          = Nat.min 20 (length (List.filter at_risk (dict_values file_stats))))
    as Hlen.
  { rewrite length_take, Hperm'.
    by rewrite <- (length_fmap silo_path), Hpaths, length_fmap. }
  split; [done|]. split.
  { rewrite Hlen. pose proof (at_risk_single (dict_values file_stats)). lia. }
  split; [done|]. intros a b Ha Hb.
  rewrite <- (take_drop 20 (snd <$> ranked)) in Hsorted.
  exact (StronglySorted_app_1_elem_of _ _ _ a b Hsorted Ha Hb).
Qed.

Lemma bus_factor_report_spec_witness :
  ∃ report,
    calculate_bus_factor
      [ ("src/a.ts",
         {| fs_path := "src/a.ts"; change_count := 4; lines_added := 10;
            lines_removed := 2; authors := ["ann"];
            last_modified := Some 9%Z; first_seen := Some 1%Z |});
        ("src/b.ts",
         {| fs_path := "src/b.ts"; change_count := 2; lines_added := 3;
            lines_removed := 0; authors := ["ann"; "bob"];
            last_modified := Some 8%Z; first_seen := Some 2%Z |}) ]
    = Ok report.
Proof.
  edestruct (bus_factor_report_spec
    [ ("src/a.ts",
       {| fs_path := "src/a.ts"; change_count := 4; lines_added := 10;
          lines_removed := 2; authors := ["ann"];
          last_modified := Some 9%Z; first_seen := Some 1%Z |});
      ("src/b.ts",
       {| fs_path := "src/b.ts"; change_count := 2; lines_added := 3;
          lines_removed := 0; authors := ["ann"; "bob"];
          last_modified := Some 8%Z; first_seen := Some 2%Z |}) ])
    as (report & _ & _ & Hreport & _).
  - repeat constructor.
  - by exists report.
Defined.

(** ** Temporal coupling: what is counted *)

Lemma occ_pos {A : Type} `{EqDecision A} (x : A) (l : list A) :
  x ∈ l → (1 ≤ occ x l)%nat.
Proof.
  induction 1 as [y l|y z l Hin IH]; rewrite occ_cons.
  - rewrite decide_True by done. lia.
  - lia.
Qed.

Lemma occ_NoDup_elem {A : Type} `{EqDecision A} (x : A) (l : list A) :
  NoDup l → occ x l = if decide (x ∈ l) then 1%nat else 0%nat.
Proof.
  intros Hnd. case_decide as Hx.
  - pose proof (occ_pos x l Hx). pose proof (occ_NoDup x l Hnd). lia.
  - by apply occ_not_elem.
Qed.

Lemma occ_pairs_with (x f1 f2 : string) (l : list string) :
  occ (f1, f2) ((λ file2, (x, file2)) <$> l)
  = if decide (x = f1) then occ f2 l else 0%nat.
Proof.
  induction l as [|y l IH]; cbn [fmap list_fmap].
  - rewrite !occ_nil. by case_decide.
  - rewrite !occ_cons, IH. repeat case_decide; simplify_eq; lia.
Qed.

Lemma ltb_asym (a b : string) :
  String.ltb a b = true → String.ltb b a = false.
Proof.
  intros Hab. pose proof (leb_ltb a b) as Hle.
  assert (String.leb a b = true) as Hleb by (apply leb_cases; by right).
  rewrite Hleb in Hle. by destruct (String.ltb b a).
Qed.

(** A pair is enumerated from a sorted file list once when both files are
    in it and the first is the smaller one, and not at all otherwise. *)
Lemma occ_pairs_after_exact (f1 f2 : string) (l : list string) :
  StronglySorted (λ a b, String.leb a b = true) l → NoDup l →
  occ (f1, f2) (pairs_after l)
  = if decide (f1 ∈ l ∧ f2 ∈ l) then
      if String.ltb f1 f2 then 1%nat else 0%nat
    else 0%nat.
Proof.
  induction 1 as [|x l Hl IH Hx]; cbn [pairs_after].
  { intros _. rewrite occ_nil. case_decide as H; [|done].
    by destruct H as [?%elem_of_nil _]. }
  intros [Hxl Hnd]%NoDup_cons. rewrite occ_app, occ_pairs_with, IH by done.
  rewrite (occ_NoDup_elem f2 l Hnd). rewrite Forall_forall in Hx.
  assert (∀ y, y ∈ l → String.ltb x y = true) as Hlt.
  { intros y Hy. destruct (proj1 (leb_cases x y) (Hx y Hy)) as [->|]; done. }
  destruct (decide (x = f1)) as [->|Hne].
  - rewrite (decide_False (P := f1 ∈ l ∧ f2 ∈ l)) by tauto.
    destruct (decide (f2 ∈ l)) as [Hf2|Hf2].
    + rewrite decide_True by (split; [left|by right]).
      rewrite (Hlt f2 Hf2). lia.
    + destruct (decide (f2 = f1)) as [->|Hne2].
      * rewrite ltb_irrefl. by destruct (decide (_ ∈ _ :: _ ∧ _)).
      * rewrite decide_False; [done|].
        intros [_ [?|?]%elem_of_cons]; done.
  - destruct (decide (f1 ∈ l ∧ f2 ∈ l)) as [[H1 H2]|Hnot].
    + rewrite decide_True by (split; by right). lia.
    + case_decide as Hboth; [|done].
      destruct Hboth as [[?|H1]%elem_of_cons [->|H2]%elem_of_cons];
        try done; [|tauto].
      by rewrite (ltb_asym _ _ (Hlt f1 H1)).
Qed.

Lemma occ_all_pairs_exact (f1 f2 : string) (sets : list (list string)) :
  Forall NoDup sets →
  occ (f1, f2) (sets ≫= λ files, pairs_after (sorted_strings files))
  = if String.ltb f1 f2 then co_changes sets f1 f2 else 0%nat.
Proof.
  unfold co_changes.
  induction 1 as [|files sets Hfiles Hsets IH].
  { cbn. by destruct (String.ltb f1 f2). }
  rewrite bind_cons, occ_app, IH, filter_cons.
  rewrite occ_pairs_after_exact;
    [|apply sorted_strings_sorted|by rewrite sorted_strings_perm].
  destruct (decide (f1 ∈ files ∧ f2 ∈ files)) as [Hboth|Hnot].
  - rewrite decide_True by (by rewrite !sorted_strings_perm).
    destruct (String.ltb f1 f2); done.
  - rewrite decide_False by (by rewrite !sorted_strings_perm).
    done.
Qed.

Lemma dict_set_Forall {K V : Type} `{EqDecision K} (P : K * V → Prop)
    (k : K) (v : V) (d : list (K * V)) :
  Forall P d → P (k, v) → Forall P (dict_set k v d).
Proof.
  intros Hd Hv. induction d as [|[k0 v0] d IH]; cbn.
  - by constructor.
  - apply Forall_cons in Hd as [Hv0 Hd].
    destruct (decide (k = k0)); constructor; auto.
Qed.

Lemma set_add_Forall {A : Type} `{EqDecision A} (P : A → Prop) (x : A)
    (l : list A) :
  Forall P l → P x → Forall P (set_add x l).
Proof.
  intros Hl Hx. unfold set_add. case_decide; [done|].
  apply Forall_app. split; [done|]. by constructor.
Qed.

Lemma set_add_not_nil {A : Type} `{EqDecision A} (x : A) (l : list A) :
  set_add x l ≠ [].
Proof.
  unfold set_add. case_decide as Hx.
  - intros ->. by apply elem_of_nil in Hx.
  - by destruct l.
Qed.

Lemma name_only_line_sets (tracked_files : list string) (st : coupling_scan)
    (raw : string) :
  scan_sets_ok tracked_files st →
  scan_sets_ok tracked_files (name_only_line tracked_files st raw).
Proof.
  intros Hok. pose proof Hok as [Hcur Hsets]. unfold name_only_line.
  case_decide; [done|].
  destruct (is_commit_hash (strip raw)) eqn:Hhash.
  { split; [|done]. cbn. by intros commit [= <-]. }
  destruct (current_commit st) as [commit|] eqn:Hcommit; [|done].
  destruct (_ && _) eqn:Hcond; [|done].
  apply andb_true_iff in Hcond as [[_ Htracked%bool_decide_eq_true]%andb_true_iff
                                     Hskip%negb_true_iff].
  split; cbn; [exact Hcur|].
  unfold dict_upd. apply dict_set_Forall; [done|]. cbn.
  split; [by apply Hcur|]. split; [apply set_add_not_nil|].
  apply set_add_Forall; [|done].
  destruct (dict_get commit (commit_files st)) as [old|] eqn:Hget; cbn;
    [|constructor].
  apply dict_get_key in Hget. rewrite Forall_forall in Hsets.
  by destruct (Hsets _ Hget) as (_ & _ & ?).
Qed.

Lemma scan_name_only_sets (tracked_files : list string) (log_output : string) :
  scan_sets_ok tracked_files (scan_name_only tracked_files log_output).
Proof.
  unfold scan_name_only. apply (fold_left_invariant (scan_sets_ok tracked_files)).
  - intros st raw _. apply name_only_line_sets.
  - split; [done|constructor].
Qed.

Lemma co_changes_elem (sets : list (list string)) (f1 f2 : string) :
  (1 ≤ co_changes sets f1 f2)%nat →
  ∃ files, files ∈ sets ∧ f1 ∈ files ∧ f2 ∈ files.
Proof.
  unfold co_changes. intros Hlen.
  destruct (filter _ sets) as [|files ?] eqn:Hfilter; [cbn in Hlen; lia|].
  exists files.
  assert (files ∈ filter (λ files, f1 ∈ files ∧ f2 ∈ files) sets) as Hin.
  { rewrite Hfilter. left. }
  apply list_elem_of_filter in Hin. tauto.
Qed.

(** X13.  In the scan of a name-only log every key of [commit_files] is a
    40-digit hash and every file set is non-empty.  For every reported
    coupling, [file1] is the smaller path, both files are tracked and not
    skipped, and [coupled_commits] is exactly the number of commits whose
    file set holds both files. *)
Theorem coupled_commits_exact (tracked_files : list string)
    (log_output : string) (min_coupling : nat) (min_ratio : Q) :
  let scan := scan_name_only tracked_files log_output in
  Forall (λ entry : string * list string,
            is_commit_hash entry.1 = true ∧ entry.2 ≠ [] ∧ NoDup entry.2)
    (commit_files scan)
  ∧ Forall (λ c,
      String.ltb (file1 c) (file2 c) = true
      ∧ coupled_commits c
        = co_changes (dict_values (commit_files scan)) (file1 c) (file2 c)
      ∧ Forall (λ f, f ∈ tracked_files ∧ _should_skip_file f = false)
          [file1 c; file2 c])
      (couplings_of_scan min_coupling min_ratio scan).
Proof.
  intros scan.
  destruct (scan_name_only_sets tracked_files log_output) as [_ Hsets].
  destruct (scan_name_only_ok tracked_files log_output) as [Hnd Hle].
  fold scan in Hsets, Hnd, Hle. split.
  - unfold dict_values in Hnd. rewrite Forall_fmap in Hnd.
    rewrite Forall_forall in Hsets, Hnd. apply Forall_forall.
    intros entry Hentry. destruct (Hsets _ Hentry) as (? & ? & _).
    split; [done|]. split; [done|]. by apply Hnd.
  - apply Forall_forall. intros c Hc.
    assert (String.ltb (file1 c) (file2 c) = true) as Hlt.
    { by apply (couplings_of_scan_ordered min_coupling min_ratio scan). }
    unfold couplings_of_scan in Hc.
    apply subseteq_take in Hc. rewrite stable_sort_perm in Hc.
    apply select_couplings_elem in Hc as (Hitem & _).
    rewrite count_couplings_tally in Hitem.
    apply tally_item in Hitem as [Hocc Hpos].
    rewrite occ_all_pairs_exact, Hlt in Hocc by done.
    split; [done|]. split; [done|].
    rewrite Hocc in Hpos.
    apply co_changes_elem in Hpos as (files & Hfiles & H1 & H2).
    apply list_elem_of_fmap in Hfiles as (entry & -> & Hentry).
    rewrite Forall_forall in Hsets.
    destruct (Hsets _ Hentry) as (_ & _ & Hall).
    rewrite Forall_forall in Hall. repeat constructor; by apply Hall.
Qed.

(** ** Temporal coupling: what is reported *)

Lemma coupling_key_le_stronger (a b : TemporalCoupling) :
  coupling_key_le b a = true ↔ stronger a b.
Proof.
  unfold coupling_key_le, stronger.
  destruct (Qeq_bool (coupling_ratio b) (coupling_ratio a)) eqn:Heq.
  - apply Qeq_bool_iff in Heq. rewrite Nat.leb_le. split; [by right|].
    intros [Hlt|[_ Hle]]; [|done].
    rewrite Heq in Hlt. by apply Qlt_irrefl in Hlt.
  - apply Qeq_bool_neq in Heq. rewrite Qle_bool_iff. split.
    + intros Hle. left. by apply Qle_lteq in Hle as [Hlt|Heq'].
    + intros [Hlt|[Heq' _]]; [by apply Qlt_le_weak|done].
Qed.

Lemma stronger_total (a b : TemporalCoupling) :
  ¬ stronger a b → stronger b a.
Proof.
  unfold stronger. intros Hnot.
  destruct (Q_dec (coupling_ratio a) (coupling_ratio b)) as [[Hlt|Hgt]|Heq].
  - by left.
  - destruct Hnot. by left.
  - right. split; [done|].
    destruct (Nat.le_gt_cases (coupled_commits b) (coupled_commits a));
      [|lia].
    destruct Hnot. right. split; [by symmetry|done].
Qed.

Lemma stronger_trans (a b c : TemporalCoupling) :
  stronger a b → stronger b c → stronger a c.
Proof.
  unfold stronger. intros [Hab|[Hab Hab']] [Hbc|[Hbc Hbc']].
  - left. by eapply Qlt_trans.
  - left. by rewrite Hbc.
  - left. by rewrite <- Hab.
  - right. split; [by rewrite Hbc|lia].
Qed.

Lemma couplings_sorted (l : list TemporalCoupling) :
  StronglySorted stronger (stable_sort (λ x y, coupling_key_le y x) l).
Proof.
  eapply StronglySorted_mono; [|apply stable_sort_sorted].
  - intros a b Hab. by apply coupling_key_le_stronger.
  - intros a b Hab. apply coupling_key_le_stronger, stronger_total.
    rewrite <- coupling_key_le_stronger. by rewrite Hab.
  - intros a b c Hab%coupling_key_le_stronger Hbc%coupling_key_le_stronger.
    apply coupling_key_le_stronger. by eapply stronger_trans.
Qed.

Lemma select_couplings_pairs (min_coupling : nat) (min_ratio : Q)
    (counts : list (string * nat))
    (coupling_count : list (string * string * nat)) :
  pair_of <$> select_couplings min_coupling min_ratio counts coupling_count
  `sublist_of` coupling_count.*1.
Proof.
  unfold select_couplings.
  induction coupling_count as [|[[f1 f2] count] cc IH];
    cbn -[Nat.ltb ratio_of Qle_bool]; [done|].
  destruct (count <? min_coupling)%nat; [by apply sublist_cons|].
  destruct (Qle_bool min_ratio _); [|by apply sublist_cons].
  cbn. by apply sublist_skip.
Qed.

Lemma select_couplings_complete (min_coupling : nat) (min_ratio : Q)
    (counts : list (string * nat))
    (coupling_count : list (string * string * nat))
    (f1 f2 : string) (count : nat) :
  (f1, f2, count) ∈ coupling_count →
  (min_coupling ≤ count)%nat →
  (min_ratio <= ratio_of count (default 0%nat (dict_get f1 counts))
                  (default 0%nat (dict_get f2 counts)))%Q →
  {| file1 := f1; file2 := f2; coupled_commits := count;
     coupling_ratio := ratio_of count (default 0%nat (dict_get f1 counts))
                         (default 0%nat (dict_get f2 counts)) |}
  ∈ select_couplings min_coupling min_ratio counts coupling_count.
Proof.
  intros Hin Hmin Hratio. unfold select_couplings.
  apply list_elem_of_omap. exists (f1, f2, count). split; [done|].
  destruct (Nat.ltb_spec count min_coupling) as [|_]; [lia|].
  apply Qle_bool_iff in Hratio. by rewrite Hratio.
Qed.

(** X14.  The couplings that pass both thresholds are ranked by ratio and
    then by co-change count, from high to low, and the first 50 are
    returned: no pair is listed twice, nothing cut off is stronger than
    anything returned, and every pair of files [f1 < f2] that changed
    together in at least [min_coupling] commits (and at least one) with a
    ratio of at least [min_ratio] is in the ranking with that count. *)
Theorem couplings_ranked (tracked_files : list string)
    (log_output : string) (min_coupling : nat) (min_ratio : Q) :
  let scan := scan_name_only tracked_files log_output in
  let emitted := couplings_of_scan min_coupling min_ratio scan in
  ∃ rest,
    StronglySorted stronger (emitted ++ rest)
    ∧ NoDup (pair_of <$> emitted ++ rest)
    ∧ length emitted = Nat.min 50 (length (emitted ++ rest))
    ∧ (∀ a b, a ∈ emitted → b ∈ rest → stronger a b)
    ∧ ∀ f1 f2,
        String.ltb f1 f2 = true →
        let count := co_changes (dict_values (commit_files scan)) f1 f2 in
        (1 ≤ count)%nat →
        (min_coupling ≤ count)%nat →
        (min_ratio
         <= ratio_of count (changes_of scan f1) (changes_of scan f2))%Q →
        ∃ c, c ∈ emitted ++ rest
             ∧ pair_of c = (f1, f2) ∧ coupled_commits c = count.
Proof.
  intros scan emitted. unfold emitted, couplings_of_scan.
  set (selected := select_couplings min_coupling min_ratio
                     (file_change_count scan)
                     (count_couplings (commit_files scan))).
  set (ranked := stable_sort (λ x y, coupling_key_le y x) selected).
  pose proof (couplings_sorted selected) as Hsorted. fold ranked in Hsorted.
  destruct (scan_name_only_ok tracked_files log_output) as [Hnd _].
  fold scan in Hnd.
  exists (drop 50 ranked). rewrite take_drop.
  split; [done|]. split.
  { unfold ranked. rewrite stable_sort_perm.
    eapply sublist_NoDup; [|apply select_couplings_pairs].
    rewrite count_couplings_tally. apply tally_NoDup, NoDup_nil_2. }
  split; [by rewrite length_take|]. split.
  { intros a b Ha Hb. rewrite <- (take_drop 50 ranked) in Hsorted.
    by eapply StronglySorted_app_1_elem_of. }
  intros f1 f2 Hlt.
  set (count := co_changes (dict_values (commit_files scan)) f1 f2).
  intros Hpos Hmin Hratio.
  eexists. split.
  - unfold ranked. rewrite stable_sort_perm.
    apply (select_couplings_complete _ _ _ _ f1 f2 count); [|done|done].
    apply dict_get_key. rewrite count_couplings_tally.
    pose proof (tally_get (f1, f2)
                  (dict_values (commit_files scan)
                     ≫= λ files, pairs_after (sorted_strings files)) [])
      as Hget.
    rewrite occ_all_pairs_exact, Hlt in Hget by done. fold count in Hget.
    destruct (dict_get (f1, f2) _) as [v|]; cbn in Hget; [by subst|lia].
  - done.
Qed.

(** ** The git report *)









(** ** Imports that reach the root of the file system *)









(** ** The entries of the priority hotspots *)

Lemma bind_id_concat {A : Type} (l : list (list A)) : l ≫= id = concat l.
Proof. induction l as [|x l IH]; cbn; [done|]. by rewrite <- IH. Qed.

(** A later record for the same path replaces the earlier one. *)
Lemma complexity_table_lookup (p : string) (l : list file_complexity)
    (acc : list (string * file_complexity)) :
  dict_get p (fold_left (λ a file_data, dict_set (cx_path file_data) file_data a)
                l acc)
  = match last (filter (λ file_data, cx_path file_data = p) l) with
    | Some file_data => Some file_data
    | None => dict_get p acc
    end.
Proof.
  revert acc. induction l as [|x l IH]; intros acc; cbn [fold_left]; [done|].
  rewrite IH, dict_get_set, filter_cons.
  destruct (decide (cx_path x = p)) as [<-|Hne].
  - rewrite last_cons, decide_True by done.
    by destruct (last (filter _ l)).
  - by rewrite decide_False by done.
Qed.

(** X17.  Every priority hotspot stems from a git hotspot, whose path,
    change count and churn it copies; its score is the product of its
    change count and its maximal complexity.  The complexity figures are
    those of the last record with this path among the records of all
    languages; a file without a record gets complexity 1, average 0 and 0
    code lines, so that its score is its change count. *)
Theorem priority_entries_spec (git : git_data) (complexity : complexity_data) :
  Forall (λ e,
      ∃ h, h ∈ hotspots git
        ∧ ph_path e = hs_path h
        ∧ ph_change_count e = hs_change_count h
        ∧ ph_churn e = hs_churn h
        ∧ priority_score e = (ph_change_count e * ph_max_complexity e)%Z
        ∧ match complexity_of complexity (hs_path h) with
          | Some file_data =>
              cx_path file_data = hs_path h
              ∧ file_data ∈ complexity_records complexity
              ∧ ph_max_complexity e = max_complexity file_data
              ∧ ph_avg_complexity e = avg_complexity file_data
              ∧ ph_code_lines e = code_lines file_data
          | None =>
              (∀ file_data, file_data ∈ complexity_records complexity →
                            cx_path file_data ≠ hs_path h)
              ∧ ph_max_complexity e = 1%Z
              ∧ ph_avg_complexity e = 0%Q
              ∧ ph_code_lines e = 0%Z
              ∧ priority_score e = hs_change_count h
          end)
    (compute_priority_hotspots git complexity).
Proof.
  apply Forall_forall. intros e He. unfold compute_priority_hotspots in He.
  apply subseteq_take in He. rewrite stable_sort_perm in He.
  apply list_elem_of_fmap in He as (h & -> & Hh).
  exists h. split; [done|]. unfold priority_entry. cbn.
  rewrite (fold_left_bind
             (λ a file_data, dict_set (cx_path file_data) file_data a) id).
  rewrite bind_id_concat, complexity_table_lookup.
  fold (complexity_records complexity).
  fold (complexity_of complexity (hs_path h)).
  repeat (split; [done|]).
  destruct (complexity_of complexity (hs_path h)) as [file_data|] eqn:Hlast;
    cbn.
  - unfold complexity_of in Hlast. apply last_Some_elem_of in Hlast.
    apply list_elem_of_filter in Hlast as [? ?]. done.
  - unfold complexity_of in Hlast. apply last_None in Hlast.
    split; [|unfold score; repeat split; lia].
    intros file_data Hin Hpath.
    assert (file_data ∈ filter (λ fd, cx_path fd = hs_path h)
                          (complexity_records complexity)) as Hfd.
    { by apply list_elem_of_filter. }
    rewrite Hlast in Hfd. by apply elem_of_nil in Hfd.
Qed.

(** ** The commit information of a snapshot *)




(** ** The dependency summary *)

Lemma round_to_half_even (places : nat) (q : Q) :
  round_to places q
  = (round_half_even (Qnum q * 10 ^ Z.of_nat places) (Zpos (Qden q))
     # Z.to_pos (10 ^ Z.of_nat places))%Q.
Proof. reflexivity. Qed.

Lemma round_half_even_mono (n1 n2 d : Z) :
  (0 < d)%Z → (n1 ≤ n2)%Z →
  (round_half_even n1 d ≤ round_half_even n2 d)%Z.
Proof.
  intros Hd Hn. unfold round_half_even.
  pose proof (Z.div_mod n1 d ltac:(lia)) as H1.
  pose proof (Z.div_mod n2 d ltac:(lia)) as H2.
  pose proof (Z.mod_pos_bound n1 d Hd) as Hr1.
  pose proof (Z.mod_pos_bound n2 d Hd) as Hr2.
  pose proof (Z.div_le_mono n1 n2 d Hd Hn) as Hlo.
  destruct (Z.eq_dec (n1 / d)%Z (n2 / d)%Z) as [Heq|Hne].
  - rewrite <- Heq in *.
    destruct (Z.ltb_spec (2 * (n1 mod d))%Z d),
      (Z.ltb_spec d (2 * (n1 mod d))%Z),
      (Z.ltb_spec (2 * (n2 mod d))%Z d),
      (Z.ltb_spec d (2 * (n2 mod d))%Z);
      destruct (Z.even (n1 / d)%Z); lia.
  - destruct (Z.ltb_spec (2 * (n1 mod d))%Z d),
      (Z.ltb_spec d (2 * (n1 mod d))%Z),
      (Z.ltb_spec (2 * (n2 mod d))%Z d),
      (Z.ltb_spec d (2 * (n2 mod d))%Z);
      destruct (Z.even (n1 / d)%Z), (Z.even (n2 / d)%Z); lia.
Qed.

Lemma average2_mono (l1 l2 : list nat) :
  length l1 = length l2 → (sum_list l1 ≤ sum_list l2)%nat →
  (average2 l1 <= average2 l2)%Q.
Proof.
  intros Hlen Hsum. unfold average2.
  destruct l1 as [|x1 l1], l2 as [|x2 l2]; try done.
  rewrite Hlen. set (len := length (x2 :: l2)).
  set (a := sum_list (x1 :: l1)) in *. set (b := sum_list (x2 :: l2)) in *.
  assert (∃ p, Z.of_nat len = Zpos p) as [p Hp].
  { unfold len. cbn [length]. rewrite Nat2Z.inj_succ.
    destruct (Z.succ (Z.of_nat (length l2))) eqn:Hz; [lia|by eexists|lia]. }
  rewrite Hp, !round_to_half_even.
  unfold Qle. cbn [Qnum Qden Qdiv Qmult Qinv inject_Z].
  apply Z.mul_le_mono_nonneg_r; [lia|].
  apply round_half_even_mono; [lia|]. nia.
Qed.

Lemma bind_length {A B : Type} (f : A → list B) (l : list A) :
  length (l ≫= f) = sum_list ((λ x, length (f x)) <$> l).
Proof.
  induction l as [|x l IH]; cbn; [done|]. by rewrite length_app, IH.
Qed.

Lemma forward_edges_length (modules : list (string * ModuleInfo)) :
  length (forward_edges modules) = sum_list (fan_out <$> dict_values modules).
Proof.
  unfold forward_edges, dict_values. rewrite bind_length, <- list_fmap_compose.
  f_equal. apply list_fmap_ext. intros _ item _. cbn.
  by rewrite length_fmap.
Qed.

Lemma reverse_edges_length (modules : list (string * ModuleInfo)) :
  length (reverse_edges modules) = sum_list (fan_in <$> dict_values modules).
Proof.
  unfold reverse_edges, dict_values. rewrite bind_length, <- list_fmap_compose.
  f_equal. apply list_fmap_ext. intros _ item _. cbn.
  by rewrite length_fmap.
Qed.

Lemma max_list_bound (n : nat) (l : list nat) :
  Forall (λ x, x ≤ n)%nat l → (max_list l ≤ n)%nat.
Proof. induction 1; cbn; lia. Qed.

Lemma sum_list_elem_le (x : nat) (l : list nat) :
  x ∈ l → (x ≤ sum_list l)%nat.
Proof. induction 1; cbn; lia. Qed.

(** What the two passes establish for the reverse edges. *)
Lemma built_graph_edges (fs : file_system) (root : list string)
    (gitignore : option (string → bool))
    (modules : list (string * ModuleInfo)) :
  build_dependency_graph fs root gitignore = Ok modules →
  NoDup (dict_keys modules)
  ∧ ∀ q mq, dict_get q modules = Some mq →
      NoDup (imported_by mq)
      ∧ ∀ p, p ∈ imported_by mq →
             ∃ mp, dict_get p modules = Some mp ∧ q ∈ imports mp.
Proof.
  rewrite build_dependency_graph_passes.
  destruct (foldM _ _ []) as [modules0| |] eqn:Hfirst; try done.
  cbn [mbind res_bind]. intros [= <-].
  destruct (first_pass_result _ _ _ _ _ Hfirst) as (Hnd & _ & Hget).
  specialize (Hnd (NoDup_nil_2 (A := string))).
  assert (∀ p m, dict_get p modules0 = Some m → imported_by m = [])
    as Hempty.
  { intros p m Hp. by destruct (Hget p m Hp) as [|(_ & ? & _)]. }
  destruct (link_all_more modules0 modules0) as [Hmore _].
  fold (second_pass modules0) in Hmore.
  destruct (second_pass_linked modules0 Hnd Hempty) as [_ Hback].
  fold (second_pass modules0) in Hback.
  assert (Forall (λ item : string * ModuleInfo, NoDup (imported_by item.2))
            (second_pass modules0)) as Himp.
  { apply second_pass_importers_NoDup, Forall_forall. intros [p m] Hin.
    apply (dict_get_elem _ _ _ Hnd) in Hin. cbn.
    rewrite (Hempty p m Hin). apply NoDup_nil_2. }
  split; [unfold dict_keys; by rewrite second_pass_keys|].
  intros q mq Hq. split.
  - rewrite Forall_forall in Himp. apply (Himp (q, mq)).
    by apply dict_get_key.
  - intros p Hp. destruct (Hback q mq p Hq Hp) as (m0 & Hm0 & Hq0).
    pose proof (Hmore p) as Hp0. rewrite Hm0 in Hp0.
    destruct (dict_get p (second_pass modules0)) as [mp|]; [|done].
    destruct Hp0 as (_ & Himports & _). exists mp. by rewrite Himports.
Qed.

(** Every reverse edge is a forward edge, and none is listed twice. *)
Lemma reverse_edges_bound (modules : list (string * ModuleInfo)) :
  NoDup (dict_keys modules) →
  (∀ q mq, dict_get q modules = Some mq →
     NoDup (imported_by mq)
     ∧ ∀ p, p ∈ imported_by mq →
            ∃ mp, dict_get p modules = Some mp ∧ q ∈ imports mp) →
  (length (reverse_edges modules) ≤ length (forward_edges modules))%nat
  ∧ Forall (λ m, fan_in m ≤ length modules)%nat (dict_values modules).
Proof.
  intros Hnd Hedges. split.
  - apply submseteq_length, NoDup_submseteq.
    + unfold reverse_edges. apply NoDup_bind.
      * intros [q1 m1] [q2 m2] [p q] Hin1 Hin2.
        intros (? & [= -> ->] & _)%list_elem_of_fmap
               (? & [= _ <-] & _)%list_elem_of_fmap.
        cbn in *. f_equal.
        apply (dict_get_elem _ _ _ Hnd) in Hin1, Hin2. congruence.
      * intros [q mq] Hin. apply (dict_get_elem _ _ _ Hnd) in Hin. cbn.
        apply (NoDup_fmap_2 _). by apply (Hedges q mq).
      * by eapply NoDup_fmap_1.
    + intros [p q]. unfold reverse_edges, forward_edges.
      rewrite !list_elem_of_bind.
      intros ([q' mq] & (x & [= Hx Hq'] & Hp)%list_elem_of_fmap & Hin).
      cbn in Hp, Hq'. subst x q'. apply (dict_get_elem _ _ _ Hnd) in Hin.
      destruct (Hedges _ _ Hin) as [_ Hback].
      destruct (Hback _ Hp) as (mp & Hmp & Hq).
      exists (p, mp). split; [|by apply dict_get_key].
      apply list_elem_of_fmap. by exists q.
  - apply Forall_forall. intros m ([q mq] & -> & Hin)%list_elem_of_fmap.
    apply (dict_get_elem _ _ _ Hnd) in Hin. cbn.
    destruct (Hedges _ _ Hin) as [Hnodup Hback].
    unfold fan_in. rewrite <- (length_fmap fst modules).
    apply submseteq_length, NoDup_submseteq; [done|].
    intros p Hp. destruct (Hback p Hp) as (mp & Hmp & _).
    by eapply dict_get_in_keys.
Qed.

(** X19.  In the summary of [analyze_dependencies] the average fan-in is
    at most the average fan-out (every reverse edge is a forward edge
    between two modules of the graph, while a forward edge may leave the
    graph), no module has more importers than there are modules, and no
    module has more imports than there are dependencies in total.  The
    counts are taken before the lists are cut: at most 20 cycles, coupled
    modules and hubs, and 30 violations and module details are listed. *)
Theorem dependency_summary_consistent (fs : file_system)
    (repo_root : list string) (gitignore : option (string → bool)) :
  match analyze_dependencies fs repo_root gitignore with
  | Ok data =>
      let s := dep_summary data in
      (avg_fan_in s <= avg_fan_out s)%Q
      ∧ (max_fan_in s ≤ total_modules s)%nat
      ∧ (max_fan_out s ≤ total_dependencies s)%nat
      ∧ length (circular_dependencies data)
        = Nat.min 20 (circular_dependency_count s)
      ∧ length (highly_coupled_modules data)
        = Nat.min 20 (highly_coupled_count s)
      ∧ length (hub_modules data) = Nat.min 20 (hub_module_count s)
      ∧ (highly_coupled_count s ≤ total_modules s)%nat
      ∧ (hub_module_count s ≤ total_modules s)%nat
      ∧ (length (layer_violations data) ≤ 30)%nat
      ∧ length (top_modules_by_instability data)
        = Nat.min 30 (total_modules s)
  | _ => True
  end.
Proof.
  unfold analyze_dependencies.
  destruct (build_dependency_graph fs repo_root gitignore)
    as [modules| |] eqn:Hbuild; [|done..].
  cbn [mbind res_bind].
  destruct (find_circular_dependencies_total modules) as (cs & -> & _).
  cbn [mbind res_bind]. cbn [dep_summary avg_fan_in avg_fan_out max_fan_in
    max_fan_out total_modules total_dependencies circular_dependencies
    circular_dependency_count highly_coupled_modules highly_coupled_count
    hub_modules hub_module_count layer_violations top_modules_by_instability].
  destruct (built_graph_edges _ _ _ _ Hbuild) as [Hnd Hedges].
  destruct (reverse_edges_bound modules Hnd Hedges) as [Hle Hfan].
  rewrite reverse_edges_length, forward_edges_length in Hle.
  split.
  { apply average2_mono; [by rewrite !length_fmap|done]. }
  split.
  { apply max_list_bound. by apply Forall_fmap. }
  split.
  { apply max_list_bound, Forall_forall. intros x Hx.
    by apply sum_list_elem_le. }
  rewrite !length_take.
  split; [done|]. split; [done|]. split; [done|].
  split.
  { unfold find_highly_coupled_modules. rewrite stable_sort_length.
    apply omap_length_le. }
  split.
  { unfold find_hub_modules. rewrite stable_sort_length.
    apply omap_length_le. }
  split; [lia|].
  rewrite stable_sort_length, length_fmap. unfold dict_values.
  by rewrite length_fmap.
Qed.

(** ** The module details *)









(** ** Completeness of the cycle search *)






(** ** Files left out of the history *)

Lemma append_cons (c : ascii) (s1 s2 : string) :
  String c s1 +:+ s2 = String c (s1 +:+ s2).
Proof. reflexivity. Qed.

Lemma append_assoc (a b c : string) : (a +:+ b) +:+ c = a +:+ (b +:+ c).
Proof.
  induction a as [|x a IH]; [done|]. by rewrite !append_cons, IH.
Qed.

Lemma replace_char_app (a : ascii) (b s1 s2 : string) :
  replace_char a b (s1 +:+ s2) = replace_char a b s1 +:+ replace_char a b s2.
Proof.
  induction s1 as [|c s1 IH]; [done|].
  rewrite append_cons. cbn [replace_char].
  destruct (Ascii.eqb c a); rewrite IH; [|done].
  by rewrite append_assoc.
Qed.

Lemma prefix_append (p s : string) : String.prefix p (p +:+ s) = true.
Proof.
  induction p as [|c p IH]; [by destruct s|].
  rewrite append_cons. cbn [String.prefix].
  by destruct (ascii_dec c c).
Qed.

Lemma contains_prefix (p s : string) :
  String.prefix p s = true → contains p s = true.
Proof. intros Hp. destruct s; cbn [contains]; by rewrite Hp. Qed.

Lemma contains_append (p pre post : string) :
  contains p (pre +:+ p +:+ post) = true.
Proof.
  induction pre as [|c pre IH].
  - apply contains_prefix, (prefix_append p post).
  - rewrite append_cons. cbn [contains]. rewrite IH. apply orb_true_r.
Qed.

(** X22.  The skip patterns of [_should_skip_file] are substring tests on
    the path with its backslashes turned into slashes: a path that holds
    one of them anywhere is skipped, so [dist/] also excludes what lies in
    a directory whose name only ends in [dist], and a pattern split by a
    backslash instead of a slash matches as well.  A path with a directory
    named [test], [tests], [__tests__] or [mocks] is skipped wherever that
    directory stands, also at the front, where no pattern matches. *)
Theorem skip_patterns_match_anywhere :
  (∀ pattern pre post,
     pattern ∈ skip_patterns →
     _should_skip_file (pre +:+ pattern +:+ post) = true)
  ∧ (∀ pre post,
       _should_skip_file (pre +:+ "\test\" +:+ post) = true)
  ∧ (∀ filepath part,
       part ∈ test_dirs →
       part ∈ all_but_last (path_components filepath) →
       _should_skip_file filepath = true)
  ∧ _should_skip_file "src/sdist/setup.py" = true
  ∧ _should_skip_file "tests/helper.py" = true
  ∧ existsb (λ pattern, contains pattern "tests/helper.py") skip_patterns
    = false.
Proof.
  assert (∀ pattern pre post,
            pattern ∈ skip_patterns →
            replace_char "\"%char "/" pattern = pattern →
            _should_skip_file (pre +:+ pattern +:+ post) = true) as Hsub.
  { intros pattern pre post Hin Hfix. unfold _should_skip_file.
    rewrite !replace_char_app, Hfix.
    assert (existsb (λ p, contains p
                            (replace_char "\"%char "/" pre +:+ pattern
                             +:+ replace_char "\"%char "/" post))
              skip_patterns = true) as ->; [|done].
    apply existsb_exists. exists pattern.
    split; [by apply list_elem_of_In|apply contains_append]. }
  split; [|split; [|split]].
  - intros pattern pre post Hin. apply Hsub; [done|].
    unfold skip_patterns in Hin.
    repeat (apply elem_of_cons in Hin as [->|Hin]; [reflexivity|]).
    by apply elem_of_nil in Hin.
  - intros pre post. unfold _should_skip_file.
    rewrite !replace_char_app.
    change (replace_char "\"%char "/" "\test\") with "/test/".
    assert (existsb (λ p, contains p
                            (replace_char "\"%char "/" pre +:+ "/test/"
                             +:+ replace_char "\"%char "/" post))
              skip_patterns = true) as ->; [|done].
    apply existsb_exists. exists "/test/".
    split; [|apply contains_append].
    apply list_elem_of_In. unfold skip_patterns. set_solver.
  - intros filepath part Hpart Hin. unfold _should_skip_file.
    destruct (existsb _ skip_patterns); [done|].
    destruct (_ || _); [done|].
    apply existsb_exists. exists part.
    split; [by apply list_elem_of_In|by apply bool_decide_eq_true].
  - split; [by vm_compute|]. split; by vm_compute.
Qed.

(** ** The exit status *)





